(** * Layout conversion operators NHWC2NCHW / NCHW2NHWC (cuDNN flavour)

    A shallow embedding of [caffe2/operators/order_switch_ops_cudnn.cc]:
    the descriptor set-up [SetTensorDescriptor], the two [DoRunWithType]
    bodies with their cache on [cached_X_dims_], and the type dispatch of
    [RunOnDevice].  C++ [int] is a 32-bit two's complement integer, kept as
    a [Z] with the wrap-around written out; a [std::vector<int>] is a
    [list Z] read and written by index.  The extents of a tensor are
    64-bit; the operators narrow them to [int] before they use them. *)

From Stdlib Require Import ZArith Lia.
From stdpp Require Import base tactics option list numbers.

Local Open Scope Z_scope.

(** ** 32-bit [int] arithmetic *)

Module Int32.

Definition int_min : Z := -2147483648.
Definition int_max : Z := 2147483647.
Definition modulus : Z := 4294967296.

(** The value an [int] holds after a computation whose exact result is
    [z]: reduction into [[int_min, int_max]] modulo [2^32]. *)
Definition wrap (z : Z) : Z := (z - int_min) mod modulus + int_min.

(** [a * b] on [int]; this is also [std::multiplies<int>]. *)
Definition mul (a b : Z) : Z := wrap (a * b).

Definition in_range (z : Z) : Prop := int_min <= z <= int_max.

End Int32.

Infix "*i" := Int32.mul (at level 40, left associativity).

(** ** Failures and the error monad *)

(** [RankError], [UnsupportedTypeError] and [TransformFailure] are the
    failures the specification names.  [OutOfBounds] stands for a read
    past the end of a [std::vector]: the source does not check, and the
    element read has no defined value. *)
Inductive failure : Set :=
  | RankError
  | UnsupportedTypeError
  | TransformFailure
  | OutOfBounds.

Inductive result (A : Type) : Type :=
  | Ok (a : A)
  | Err (e : failure).
Arguments Ok {A} a.
Arguments Err {A} e.

#[global] Instance failure_eq_dec : EqDecision failure.
Proof. solve_decision. Defined.

#[global] Instance result_ret : MRet result := @Ok.
#[global] Instance result_bind : MBind result := λ A B f m,
  match m with
  | Ok a => f a
  | Err e => Err e
  end.

(** ** [std::vector<int>] *)

Module Vec.

Definition size (v : list Z) : Z := Z.of_nat (length v).

(** [v[i]] *)
Definition at_ (v : list Z) (i : Z) : result Z :=
  if bool_decide (0 <= i) then
    match v !! Z.to_nat i with
    | Some x => Ok x
    | None => Err OutOfBounds
    end
  else Err OutOfBounds.

(** [v.back()] *)
Definition back (v : list Z) : result Z := at_ v (size v - 1).

(** [v[i] = x].  The write is unchecked: past the end it lands outside
    the storage of the vector and leaves the vector as it is. *)
Definition set (v : list Z) (i x : Z) : list Z :=
  if bool_decide (0 <= i) then <[Z.to_nat i := x]> v else v.

(** [std::vector<int> v(first, last)] over 64-bit extents: every extent
    is narrowed to [int]. *)
Definition narrow (sizes : list Z) : list Z := Int32.wrap <$> sizes.

(** The elements between [v.cbegin() + l] and [v.cbegin() + r], as a loop
    from the first iterator to the second visits them; none when the
    second is not after the first. *)
Definition slice (v : list Z) (l r : Z) : list Z :=
  take (Z.to_nat (r - l)) (drop (Z.to_nat l) v).

(** The elements of the iterator range [[v.cbegin() + l, v.cbegin() + r)]. *)
Definition range (v : list Z) (l r : Z) : result (list Z) :=
  if bool_decide (0 <= l <= r ∧ r <= size v) then
    Ok (take (Z.to_nat (r - l)) (drop (Z.to_nat l) v))
  else Err OutOfBounds.

(** The writes of [std::copy], one element after the other, starting at
    index [pos] of the destination. *)
Fixpoint copy_loop (src dst : list Z) (pos : nat) : list Z :=
  match src with
  | [] => dst
  | x :: src' => copy_loop src' (<[pos := x]> dst) (S pos)
  end.

(** [std::copy(first, last, dst.begin() + pos)] *)
Definition copy (src dst : list Z) (pos : Z) : list Z :=
  copy_loop src dst (Z.to_nat pos).

(** [std::accumulate(first, last, init, op)] *)
Definition accumulate (rng : list Z) (init : Z) (op : Z → Z → Z) : Z :=
  fold_left op rng init.

(** [std::vector<int> v(n)]: [n] zeros. *)
Definition make (n : Z) : list Z := replicate (Z.to_nat n) 0.

End Vec.

(** ** cuDNN descriptors *)

Inductive StorageOrder : Set := NHWC | NCHW.
Inductive cudnnTensorFormat_t : Set := CUDNN_TENSOR_NCHW | CUDNN_TENSOR_NHWC.
Inductive cudnnDataType_t : Set := CUDNN_DATA_FLOAT | CUDNN_DATA_HALF.

#[global] Instance StorageOrder_eq_dec : EqDecision StorageOrder.
Proof. solve_decision. Defined.
#[global] Instance cudnnDataType_eq_dec : EqDecision cudnnDataType_t.
Proof. solve_decision. Defined.

Definition GetCudnnTensorFormat (order : StorageOrder) : cudnnTensorFormat_t :=
  match order with
  | NCHW => CUDNN_TENSOR_NCHW
  | NHWC => CUDNN_TENSOR_NHWC
  end.

(** What a [cudnnTensorDescriptor_t] holds: the element type tag, the
    number of axes, and one extent and one stride per axis. *)
Record TensorDescriptor : Set := mkDesc {
  dataType : cudnnDataType_t;
  nbDims : Z;
  dimA : list Z;
  strideA : list Z
}.

#[global] Instance TensorDescriptor_eq_dec : EqDecision TensorDescriptor.
Proof. solve_decision. Defined.

(** [cudnnCreateTensorDescriptor]: a descriptor that nothing was set in. *)
Definition cudnnCreateTensorDescriptor : TensorDescriptor :=
  mkDesc CUDNN_DATA_FLOAT 0 [] [].

(** Modelled from the spec: [cudnnSetTensor4dDescriptor] belongs to the
    external cuDNN library.  It stores four axes (N, C, H, W) with the
    strides of section 4.1: row-major for the channel-second format
    (stride(W)=1, stride(H)=W, stride(C)=H*W, stride(N)=C*H*W) and
    stride(C)=1, stride(W)=C, stride(H)=W*C, stride(N)=H*W*C for the
    channel-last format.  The strides are [int]s. *)
Definition cudnnSetTensor4dDescriptor (format : cudnnTensorFormat_t)
    (data_type : cudnnDataType_t) (n c h w : Z) : TensorDescriptor :=
  mkDesc data_type 4 [n; c; h; w]
    match format with
    | CUDNN_TENSOR_NCHW => [c *i h *i w; h *i w; w; 1]
    | CUDNN_TENSOR_NHWC => [h *i w *i c; 1; w *i c; c]
    end.

(** Modelled from the spec: [cudnnSetTensorNdDescriptor] belongs to the
    external cuDNN library.  It stores the extents and strides it is
    given. *)
Definition cudnnSetTensorNdDescriptor (data_type : cudnnDataType_t)
    (nb_dims : Z) (dims strides : list Z) : TensorDescriptor :=
  mkDesc data_type nb_dims dims strides.

(** [CuDNNOrderSwithOpBase::SetTensorDescriptor]: the new contents of
    [data_desc]. *)
Definition SetTensorDescriptor (data_type : cudnnDataType_t)
    (order : StorageOrder) (data_dims : list Z) : result TensorDescriptor :=
  let ndim := Vec.size data_dims in
  N ← Vec.at_ data_dims 0;
  C ← (if decide (order = NCHW) then Vec.at_ data_dims 1
       else Vec.back data_dims);
  if decide (ndim = 3) then
    let H := 1 in
    W ← (if decide (order = NCHW) then Vec.at_ data_dims 2
         else Vec.at_ data_dims 1);
    mret (cudnnSetTensor4dDescriptor
            (GetCudnnTensorFormat order) data_type N C H W)
  else if decide (ndim = 4) then
    H ← (if decide (order = NCHW) then Vec.at_ data_dims 2
         else Vec.at_ data_dims 1);
    W ← (if decide (order = NCHW) then Vec.at_ data_dims 3
         else Vec.at_ data_dims 2);
    mret (cudnnSetTensor4dDescriptor
            (GetCudnnTensorFormat order) data_type N C H W)
  else
    H ← (if decide (order = NCHW) then Vec.at_ data_dims 2
         else Vec.at_ data_dims 1);
    W ← (if decide (order = NCHW) then Vec.at_ data_dims 3
         else Vec.at_ data_dims 2);
    let l_iter := if decide (order = NCHW) then 4 else 3 in
    let r_iter := if decide (order = NCHW) then ndim else ndim - 1 in
    rng ← Vec.range data_dims l_iter r_iter;
    let D := Vec.accumulate rng 1 Int32.mul in
    let dims := [N; C; H; W; D] in
    let strides :=
      if decide (order = NCHW)
      then [C *i H *i W *i D; H *i W *i D; W *i D; D; 1]
      else [C *i H *i W *i D; 1; W *i D *i C; D *i C; C] in
    mret (cudnnSetTensorNdDescriptor data_type 5 dims strides).

(** ** Tensors, element types and the transform primitive *)

(** The element types a tensor can carry ([TypeMeta]); the operators
    dispatch on [float] and [at::Half] only. *)
Inductive TypeMeta : Set :=
  | Meta_float | Meta_Half | Meta_double
  | Meta_int32 | Meta_int64 | Meta_uint8 | Meta_bool.

#[global] Instance TypeMeta_eq_dec : EqDecision TypeMeta.
Proof. solve_decision. Defined.

(** The template parameter [T] of [DoRunWithType]. *)
Inductive ScalarT : Set := T_float | T_Half.

Definition cudnnTypeWrapper_type (T : ScalarT) : cudnnDataType_t :=
  match T with
  | T_float => CUDNN_DATA_FLOAT
  | T_Half => CUDNN_DATA_HALF
  end.

Definition TypeMeta_Make (T : ScalarT) : TypeMeta :=
  match T with
  | T_float => Meta_float
  | T_Half => Meta_Half
  end.

(** Modelled from the spec: [Tensor::dim32] is declared outside this
    file.  It gives the extent at axis [i] (section 4.2: N =
    inputDims[0], C = inputDims[last]) as the [int] the source keeps it
    in.  Neither the source nor the spec says what it does for an axis
    the tensor does not have; that is taken as a read past the end of
    the extents. *)
Definition dim32 (sizes : list Z) (i : Z) : result Z :=
  x ← Vec.at_ sizes i; mret (Int32.wrap x).

(** The two conversions. *)
Inductive Direction : Set := NHWC2NCHW | NCHW2NHWC.

#[global] Instance Direction_eq_dec : EqDecision Direction.
Proof. solve_decision. Defined.

(** Lines 86-93: [Y_dims] of [CuDNNNHWC2NCHWOp::DoRunWithType], from
    the 64-bit extents [X.sizes()]. *)
Definition NHWC2NCHW_Y_dims (sizes : list Z) : result (list Z) :=
  let ndim := Vec.size sizes in
  N ← dim32 sizes 0;
  C ← dim32 sizes (ndim - 1);
  let X_dims := Vec.narrow sizes in
  let Y_dims := Vec.make ndim in
  let Y_dims := Vec.set Y_dims 0 N in
  let Y_dims := Vec.set Y_dims 1 C in
  mret (Vec.copy (Vec.slice X_dims 1 (ndim - 1)) Y_dims 2).

(** Lines 127-134: [Y_dims] of [CuDNNNCHW2NHWCOp::DoRunWithType], from
    the 64-bit extents [X.sizes()]. *)
Definition NCHW2NHWC_Y_dims (sizes : list Z) : result (list Z) :=
  let ndim := Vec.size sizes in
  N ← dim32 sizes 0;
  C ← dim32 sizes 1;
  let X_dims := Vec.narrow sizes in
  let Y_dims := Vec.make ndim in
  let Y_dims := Vec.set Y_dims 0 N in
  let Y_dims := Vec.set Y_dims (ndim - 1) C in
  mret (Vec.copy (Vec.slice X_dims 2 ndim) Y_dims 1).

Definition computeOutputShape (d : Direction) (sizes : list Z)
    : result (list Z) :=
  match d with
  | NHWC2NCHW => NHWC2NCHW_Y_dims sizes
  | NCHW2NHWC => NCHW2NHWC_Y_dims sizes
  end.

Definition source_order (d : Direction) : StorageOrder :=
  match d with NHWC2NCHW => NHWC | NCHW2NHWC => NCHW end.
Definition dest_order (d : Direction) : StorageOrder :=
  match d with NHWC2NCHW => NCHW | NCHW2NHWC => NHWC end.

(** *** Strided memory *)

Module Mem.
Section Mem.
Context {elem : Type}.

(** [m[k] = v] on a buffer addressed by element offset. *)
Definition upd (m : Z → elem) (k : Z) (v : elem) : Z → elem :=
  λ o, if bool_decide (o = k) then v else m o.

(** All index tuples [i_1 .. i_k] with [0 <= i_j < dims_j], the first
    axis outermost. *)
Fixpoint box (dims : list Z) : list (list Z) :=
  match dims with
  | [] => [[]]
  | d :: dims' => i ← seqZ 0 d; (i ::.) <$> box dims'
  end.

(** The element offset of an index tuple under a stride vector. *)
Fixpoint offset (idx strides : list Z) : Z :=
  match idx, strides with
  | i :: idx', s :: strides' => i * s + offset idx' strides'
  | _, _ => 0
  end.

(** One pass over the box: [y[offset_y idx] = x[offset_x idx]]. *)
Definition relayout (dims xs ys : list Z) (x y : Z → elem) : Z → elem :=
  fold_left (λ m idx, upd m (offset idx ys) (x (offset idx xs)))
            (box dims) y.
End Mem.
End Mem.

Section Operators.
Context {elem : Type}.

(** A tensor: its 64-bit extents [sizes()], its element type, and its
    buffer addressed by element offset. *)
Record Tensor : Type := mkTensor {
  sizes : list Z;
  meta : TypeMeta;
  data : Z → elem
}.

(** Modelled from the spec: [cudnnTransformTensor] with [alpha = 1] and
    [beta = 0] is the external transform primitive, a pure strided
    relayout copy over the extents of the two descriptors; it reports a
    fault when the two descriptors disagree on their extents. *)
Definition cudnnTransformTensor (xDesc : TensorDescriptor) (x : Z → elem)
    (yDesc : TensorDescriptor) (y : Z → elem) : result (Z → elem) :=
  if decide (nbDims xDesc = nbDims yDesc ∧ dimA xDesc = dimA yDesc) then
    Ok (Mem.relayout (dimA xDesc) (strideA xDesc) (strideA yDesc) x y)
  else Err TransformFailure.

(** The members of [CuDNNOrderSwithOpBase]. *)
Record OpState : Set := mkOpState {
  X_desc_ : TensorDescriptor;
  Y_desc_ : TensorDescriptor;
  cached_X_dims_ : list Z
}.

(** The constructor: two created descriptors and an empty
    [cached_X_dims_]. *)
Definition CuDNNOrderSwithOpBase : OpState :=
  mkOpState cudnnCreateTensorDescriptor cudnnCreateTensorDescriptor [].

(** What a run can change: the operator instance and its output tensor
    [Output(0)]. *)
Record World : Type := mkWorld {
  self : OpState;
  output : Tensor
}.

(** Runs thread the world and may throw; what was changed before a
    throw stays changed. *)
Definition Op (A : Type) : Type := World → World * result A.

#[local] Instance Op_ret : MRet Op := λ A a w, (w, Ok a).
#[local] Instance Op_bind : MBind Op := λ A B f m w,
  match m w with
  | (w', Ok a) => f a w'
  | (w', Err e) => (w', Err e)
  end.

Definition lift {A} (r : result A) : Op A := λ w, (w, r).

Definition get_cached_X_dims : Op (list Z) :=
  λ w, (w, Ok (cached_X_dims_ (self w))).
Definition set_cached_X_dims (v : list Z) : Op unit :=
  λ w, (mkWorld (mkOpState (X_desc_ (self w)) (Y_desc_ (self w)) v)
                (output w), Ok ()).
Definition set_X_desc (d : TensorDescriptor) : Op unit :=
  λ w, (mkWorld (mkOpState d (Y_desc_ (self w)) (cached_X_dims_ (self w)))
                (output w), Ok ()).
Definition set_Y_desc (d : TensorDescriptor) : Op unit :=
  λ w, (mkWorld (mkOpState (X_desc_ (self w)) d (cached_X_dims_ (self w)))
                (output w), Ok ()).

(** Modelled from the spec: [Y->Resize(dims)] belongs to the tensor
    abstraction.  It gives the output the requested extents; the
    contents of the buffer are whatever it held. *)
Definition Resize (dims : list Z) : Op unit :=
  λ w, (mkWorld (self w)
          (mkTensor dims (meta (output w)) (data (output w))), Ok ()).

(** [cudnnTransformTensor(handle, kOne, X_desc_, X.data<T>(), kZero,
    Y_desc_, Y->mutable_data<T>())] under [CUDNN_ENFORCE];
    [mutable_data<T>] gives the output the element type [T]. *)
Definition TransformTensor (T : ScalarT) (X : Tensor) : Op unit :=
  λ w,
    let Y := mkTensor (sizes (output w)) (TypeMeta_Make T)
                      (data (output w)) in
    match cudnnTransformTensor (X_desc_ (self w)) (data X)
                               (Y_desc_ (self w)) (data Y) with
    | Ok y' => (mkWorld (self w)
                  (mkTensor (sizes Y) (meta Y) y'), Ok ())
    | Err e => (mkWorld (self w) Y, Err e)
    end.

(** [DoRunWithType<T>] of the two operators; they differ in the
    [Y_dims] they compute and in the storage orders they pass. *)
Definition DoRunWithType (d : Direction) (T : ScalarT) (X : Tensor)
    : Op bool :=
  let X_dims := Vec.narrow (sizes X) in
  Y_dims ← lift (computeOutputShape d (sizes X));
  Resize Y_dims;;
  cached ← get_cached_X_dims;
  (if decide (cached ≠ X_dims) then
     set_cached_X_dims X_dims;;
     xd ← lift (SetTensorDescriptor
                  (cudnnTypeWrapper_type T) (source_order d) X_dims);
     set_X_desc xd;;
     yd ← lift (SetTensorDescriptor
                  (cudnnTypeWrapper_type T) (dest_order d) Y_dims);
     set_Y_desc yd
   else mret ());;
  TransformTensor T X;;
  mret true.

(** Modelled from the spec: [DispatchHelper<TensorTypes<float,
    at::Half>>::call] is declared outside this file.  It runs
    [DoRunWithType<T>] for the listed type the input carries and fails
    with [UnsupportedTypeError] for any other element type. *)
Definition RunOnDevice (d : Direction) (X : Tensor) : Op bool :=
  match meta X with
  | Meta_float => DoRunWithType d T_float X
  | Meta_Half => DoRunWithType d T_Half X
  | _ => lift (Err UnsupportedTypeError)
  end.

Definition supported (m : TypeMeta) : bool :=
  match m with
  | Meta_float | Meta_Half => true
  | _ => false
  end.

End Operators.

Arguments Tensor : clear implicits.
Arguments World : clear implicits.
Arguments Op : clear implicits.

(** The exact product of a list of extents. *)
Definition numel (dims : list Z) : Z := foldr Z.mul 1 dims.

(** An index tuple is in the box of [dims] when every index is within
    its extent. *)
Definition in_box (idx dims : list Z) : Prop :=
  Forall2 (λ i d, 0 <= i < d) idx dims.

(** A stride vector is injective on a box when distinct index tuples get
    distinct offsets. *)
Definition injective_on (dims strides : list Z) : Prop :=
  ∀ idx idx', in_box idx dims → in_box idx' dims →
    Mem.offset idx strides = Mem.offset idx' strides → idx = idx'.

(** It covers a buffer of [n] elements when every offset below [n] is the
    offset of an index tuple of the box. *)
Definition covers (dims strides : list Z) (n : Z) : Prop :=
  ∀ o, 0 <= o < n → ∃ idx, in_box idx dims ∧ Mem.offset idx strides = o.

(** Row-major strides: each axis steps over the product of the extents
    after it. *)
Fixpoint rm_strides (dims : list Z) : list Z :=
  match dims with
  | [] => []
  | _ :: dims' => numel dims' :: rm_strides dims'
  end.

(** The cache of an instance is coherent for the extents of an input
    and an element type when a hit on their narrowed list finds the
    descriptors that a miss would derive for them. *)
Definition cache_coherent (d : Direction) (T : ScalarT) (sizes : list Z)
    (st : OpState) : Prop :=
  cached_X_dims_ st = Vec.narrow sizes →
  ∃ Y_dims,
    computeOutputShape d sizes = Ok Y_dims
    ∧ SetTensorDescriptor (cudnnTypeWrapper_type T) (source_order d)
        (Vec.narrow sizes) = Ok (X_desc_ st)
    ∧ SetTensorDescriptor (cudnnTypeWrapper_type T) (dest_order d) Y_dims
      = Ok (Y_desc_ st).

(** The extents and strides that [SetTensorDescriptor] passes on for a
    list with spatial extents [h], [w] and [sp], in [int] arithmetic. *)
Definition nd_extents (n c h w : Z) (sp : list Z) : list Z :=
  [n; c; h; w; Vec.accumulate sp 1 Int32.mul].
Definition nd_strides (order : StorageOrder) (c h w : Z) (sp : list Z)
    : list Z :=
  let D := Vec.accumulate sp 1 Int32.mul in
  match order with
  | NCHW => [c *i h *i w *i D; h *i w *i D; w *i D; D; 1]
  | NHWC => [c *i h *i w *i D; 1; w *i D *i c; D *i c; c]
  end.

(** Every offset of a box under a stride vector lies below [n]. *)
Definition within (dims strides : list Z) (n : Z) : Prop :=
  ∀ idx, in_box idx dims → 0 <= Mem.offset idx strides < n.

(** The index tuple of batch [i], channel [j] and flat spatial position
    [s]: channel-second strides put it at [(i*C + j)*S + s], channel-last
    strides at [(i*S + s)*C + j], where [S] is the spatial size. *)
Definition transposes (dims sC sN : list Z) (N C S : Z) : Prop :=
  ∀ i j s, 0 <= i < N → 0 <= j < C → 0 <= s < S →
    ∃ idx, in_box idx dims
           ∧ Mem.offset idx sC = (i * C + j) * S + s
           ∧ Mem.offset idx sN = (i * S + s) * C + j.

(** What the two stride vectors of a conversion have in common, for a
    channel-last list [n :: mid ++ [c]]. *)
Definition layout_pair (E sN sC : list Z) (n c : Z) (mid : list Z)
    : Prop :=
  injective_on E sC ∧ injective_on E sN
  ∧ within E sC (numel (n :: mid ++ [c]))
  ∧ within E sN (numel (n :: mid ++ [c]))
  ∧ covers E sC (numel (n :: mid ++ [c]))
  ∧ covers E sN (numel (n :: mid ++ [c]))
  ∧ transposes E sC sN n c (numel mid).

(** The invariant of the cache: either nothing was cached yet, or the
    two descriptors are those derived, for one element type, from the
    cached dimension list and its output shape. *)
Definition cache_inv (d : Direction) (st : OpState) : Prop :=
  cached_X_dims_ st = []
  ∨ ∃ T Y_dims,
      computeOutputShape d (cached_X_dims_ st) = Ok Y_dims
      ∧ SetTensorDescriptor (cudnnTypeWrapper_type T) (source_order d)
          (cached_X_dims_ st) = Ok (X_desc_ st)
      ∧ SetTensorDescriptor (cudnnTypeWrapper_type T) (dest_order d) Y_dims
        = Ok (Y_desc_ st).

(** A small tensor and fresh instances, for trying the properties on a
    concrete input. *)
Definition example_input : Tensor Z :=
  mkTensor [2; 2; 3] Meta_float (λ o, o + 100).
Definition example_world (fill : Z) : World Z :=
  mkWorld CuDNNOrderSwithOpBase (mkTensor [] Meta_float (λ _, fill)).

(** Splits the hypotheses that an index tuple lies in a box of known
    rank into one bound per index. *)
Ltac invert_box :=
  unfold in_box in *;
  repeat match goal with
         | H : Forall2 _ _ (_ :: _) |- _ => inversion H; subst; clear H
         | H : Forall2 _ _ [] |- _ => inversion H; subst; clear H
         end.

(** * Properties *)

(** ** The model on small inputs *)

Example SetTensorDescriptor_nchw4 :
  SetTensorDescriptor CUDNN_DATA_FLOAT NCHW [2; 3; 4; 5]
  = Ok (mkDesc CUDNN_DATA_FLOAT 4 [2; 3; 4; 5] [60; 20; 5; 1]).
Proof. reflexivity. Qed.

Example SetTensorDescriptor_nhwc6 :
  SetTensorDescriptor CUDNN_DATA_HALF NHWC [2; 3; 4; 5; 6; 7]
  = Ok (mkDesc CUDNN_DATA_HALF 5 [2; 7; 3; 4; 30] [2520; 1; 840; 210; 7]).
Proof. reflexivity. Qed.

Example NHWC2NCHW_Y_dims_4 :
  NHWC2NCHW_Y_dims [2; 5; 7; 3] = Ok [2; 3; 5; 7].
Proof. reflexivity. Qed.

Example NCHW2NHWC_Y_dims_4 :
  NCHW2NHWC_Y_dims [2; 3; 5; 7] = Ok [2; 5; 7; 3].
Proof. reflexivity. Qed.

(** An extent that does not fit an [int] is narrowed before it is
    used: the sizes [(1, 4294967298, 3)] give [X_dims = (1, 2, 3)]. *)
Example NHWC2NCHW_Y_dims_narrowed :
  NHWC2NCHW_Y_dims [1; 4294967298; 3] = Ok [1; 3; 2].
Proof. reflexivity. Qed.

Example DoRunWithType_narrowed :
  let X := mkTensor [1; 4294967298; 3] Meta_float (λ o : Z, o) in
  let r := RunOnDevice NHWC2NCHW X (example_world 0) in
  sizes (output r.1) = [1; 3; 2] ∧ cached_X_dims_ (self r.1) = [1; 2; 3].
Proof. split; reflexivity. Qed.

(** At rank 1 the write [Y_dims[1] = C] of the channel-last operator
    falls outside [Y_dims]; the run goes on to [Y->Resize(Y_dims)] and
    stops in the descriptor set-up. *)
Example NHWC2NCHW_rank1 :
  let X := mkTensor [5] Meta_float (λ o : Z, o) in
  let r := RunOnDevice NHWC2NCHW X (example_world 0) in
  NHWC2NCHW_Y_dims [5] = Ok [5]
  ∧ sizes (output r.1) = [5]
  ∧ r.2 = Err OutOfBounds.
Proof. repeat split; reflexivity. Qed.

(** ** Vectors *)

Lemma Vec_size_nonneg (v : list Z) : 0 <= Vec.size v.
Proof. unfold Vec.size. lia. Qed.

Lemma Vec_at_Ok (v : list Z) (i x : Z) :
  0 <= i → v !! Z.to_nat i = Some x → Vec.at_ v i = Ok x.
Proof.
  intros Hi Hx. unfold Vec.at_.
  rewrite bool_decide_true by lia. by rewrite Hx.
Qed.

Lemma dim32_Ok (v : list Z) (i x : Z) :
  0 <= i → v !! Z.to_nat i = Some x → dim32 v i = Ok (Int32.wrap x).
Proof. intros Hi Hx. unfold dim32. by rewrite (Vec_at_Ok v i x). Qed.

Lemma Vec_range_Ok (v : list Z) (l r : Z) :
  0 <= l <= r → r <= Vec.size v →
  Vec.range v l r = Ok (take (Z.to_nat (r - l)) (drop (Z.to_nat l) v)).
Proof. intros Hl Hr. unfold Vec.range. by rewrite bool_decide_true. Qed.

(** [std::copy] overwrites the window it is given and nothing else. *)
Lemma Vec_copy_loop_window (src dst : list Z) (pos : nat) :
  (pos + length src <= length dst)%nat →
  Vec.copy_loop src dst pos
  = take pos dst ++ src ++ drop (pos + length src) dst.
Proof.
  revert dst pos. induction src as [|x src IH]; intros dst pos Hlen; simpl.
  - by rewrite Nat.add_0_r, take_drop.
  - simpl in Hlen. rewrite IH by (rewrite length_insert; lia).
    rewrite take_S_r with (x := x)
      by (apply list_lookup_insert_eq; lia).
    rewrite take_insert_ge by lia.
    rewrite drop_insert_lt by lia.
    rewrite <- app_assoc. simpl. by rewrite Nat.add_succ_r.
Qed.

Lemma insert_last_drop (l : list Z) (k : nat) (c : Z) :
  length l = S k → drop k (<[k := c]> l) = [c].
Proof.
  intros Hlen. rewrite drop_insert_ge by lia. rewrite Nat.sub_diag.
  destruct (drop k l) as [|y tl] eqn:E;
    apply (f_equal length) in E; rewrite length_drop in E; simpl in E.
  - lia.
  - destruct tl; simpl in *; [done | lia].
Qed.

(** ** Narrowing to [int] *)

Lemma wrap_in_range (z : Z) : Int32.in_range z → Int32.wrap z = z.
Proof.
  unfold Int32.in_range, Int32.wrap, Int32.int_min, Int32.int_max,
    Int32.modulus.
  intros Hz. rewrite Z.mod_small by lia. lia.
Qed.

Lemma wrap_range (z : Z) : Int32.in_range (Int32.wrap z).
Proof.
  unfold Int32.in_range, Int32.wrap, Int32.int_min, Int32.int_max,
    Int32.modulus.
  pose proof (Z.mod_pos_bound (z - -2147483648) 4294967296). lia.
Qed.

Lemma wrap_idem (z : Z) : Int32.wrap (Int32.wrap z) = Int32.wrap z.
Proof. apply wrap_in_range, wrap_range. Qed.

Lemma narrow_in_range (l : list Z) :
  Forall Int32.in_range l → Vec.narrow l = l.
Proof.
  induction 1 as [|x l Hx _ IH]; [done|].
  unfold Vec.narrow in *. rewrite fmap_cons, IH. by rewrite wrap_in_range.
Qed.

Lemma narrow_range (l : list Z) : Forall Int32.in_range (Vec.narrow l).
Proof.
  unfold Vec.narrow. apply Forall_fmap, Forall_true. intros x.
  apply wrap_range.
Qed.

Lemma narrow_idem (l : list Z) : Vec.narrow (Vec.narrow l) = Vec.narrow l.
Proof. apply narrow_in_range, narrow_range. Qed.

Lemma narrow_cons (x : Z) (l : list Z) :
  Vec.narrow (x :: l) = Int32.wrap x :: Vec.narrow l.
Proof. done. Qed.

Lemma narrow_app (l k : list Z) :
  Vec.narrow (l ++ k) = Vec.narrow l ++ Vec.narrow k.
Proof. unfold Vec.narrow. apply fmap_app. Qed.

Lemma narrow_length (l : list Z) : length (Vec.narrow l) = length l.
Proof. unfold Vec.narrow. apply length_fmap. Qed.

(** ** The output shape, in closed form *)

Lemma Vec_size_cons (x : Z) (v : list Z) :
  Vec.size (x :: v) = Vec.size v + 1.
Proof. unfold Vec.size. simpl. lia. Qed.

Lemma Vec_size_snoc (x : Z) (v : list Z) :
  Vec.size (v ++ [x]) = Vec.size v + 1.
Proof. unfold Vec.size. rewrite length_app. simpl. lia. Qed.

Lemma NHWC2NCHW_Y_dims_app (n c : Z) (mid : list Z) :
  NHWC2NCHW_Y_dims (n :: mid ++ [c]) = Ok (Vec.narrow (n :: c :: mid)).
Proof.
  unfold NHWC2NCHW_Y_dims.
  set (X := n :: mid ++ [c]).
  assert (Hsz : Vec.size X = Z.of_nat (length mid) + 2).
  { unfold X. rewrite Vec_size_cons, Vec_size_snoc. unfold Vec.size. lia. }
  rewrite Hsz.
  rewrite (dim32_Ok X 0 n) by done. simpl mbind.
  rewrite (dim32_Ok X (Z.of_nat (length mid) + 2 - 1) c); [|lia|].
  2:{ unfold X.
      replace (Z.to_nat (Z.of_nat (length mid) + 2 - 1))
        with (S (length mid)) by lia.
      simpl. rewrite lookup_app_r by lia. by rewrite Nat.sub_diag. }
  simpl mbind. unfold mret, result_ret. f_equal.
  unfold Vec.copy, Vec.slice, Vec.set, Vec.make.
  rewrite !bool_decide_true by lia.
  replace (Z.to_nat (Z.of_nat (length mid) + 2))
    with (S (S (length mid))) by lia.
  replace (Z.to_nat (Z.of_nat (length mid) + 2 - 1 - 1))
    with (length (Vec.narrow mid)) by (rewrite narrow_length; lia).
  unfold X. rewrite narrow_cons, narrow_app.
  change (drop (Z.to_nat 1)
            (Int32.wrap n :: Vec.narrow mid ++ Vec.narrow [c]))
    with (Vec.narrow mid ++ Vec.narrow [c]).
  rewrite take_app_length.
  rewrite Vec_copy_loop_window.
  2:{ simpl. rewrite length_replicate, narrow_length. lia. }
  change (Z.to_nat 2) with 2%nat. simpl.
  rewrite drop_ge by (rewrite length_replicate, narrow_length; lia).
  by rewrite app_nil_r.
Qed.

Lemma NCHW2NHWC_Y_dims_cons (n c : Z) (rest : list Z) :
  NCHW2NHWC_Y_dims (n :: c :: rest) = Ok (Vec.narrow (n :: rest ++ [c])).
Proof.
  unfold NCHW2NHWC_Y_dims.
  set (X := n :: c :: rest).
  assert (Hsz : Vec.size X = Z.of_nat (length rest) + 2).
  { unfold X. rewrite !Vec_size_cons. unfold Vec.size. lia. }
  rewrite Hsz.
  rewrite (dim32_Ok X 0 n) by done. cbn [mbind result_bind].
  rewrite (dim32_Ok X 1 c) by done. cbn [mbind result_bind].
  unfold mret, result_ret. f_equal.
  unfold Vec.copy, Vec.slice, Vec.set, Vec.make.
  rewrite !bool_decide_true by lia.
  replace (Z.to_nat (Z.of_nat (length rest) + 2))
    with (S (S (length rest))) by lia.
  replace (Z.to_nat (Z.of_nat (length rest) + 2 - 1))
    with (S (length rest)) by lia.
  replace (Z.to_nat (Z.of_nat (length rest) + 2 - 2))
    with (length rest) by lia.
  unfold X. rewrite !narrow_cons.
  change (drop (Z.to_nat 2)
            (Int32.wrap n :: Int32.wrap c :: Vec.narrow rest))
    with (Vec.narrow rest).
  rewrite take_ge by (rewrite narrow_length; lia).
  rewrite Vec_copy_loop_window.
  2:{ rewrite !length_insert, length_replicate, narrow_length.
      change (Z.to_nat 1) with 1%nat. lia. }
  change (Z.to_nat 1) with 1%nat. change (Z.to_nat 0) with 0%nat.
  rewrite narrow_app. simpl. f_equal. f_equal.
  rewrite narrow_length.
  apply insert_last_drop. simpl. by rewrite length_replicate.
Qed.

(** A list of rank at least two splits into first, middle and last. *)
Lemma rank2_split (dims : list Z) :
  (2 <= length dims)%nat →
  ∃ n mid c, dims = n :: mid ++ [c].
Proof.
  intros Hlen. destruct dims as [|n tl]; [simpl in Hlen; lia|].
  induction tl as [|c mid _] using rev_ind; [simpl in Hlen; lia|].
  by exists n, mid, c.
Qed.

Lemma numel_app (l k : list Z) : numel (l ++ k) = numel l * numel k.
Proof.
  induction l as [|x l IH].
  - change (numel k = 1 * numel k). lia.
  - change (x * numel (l ++ k) = x * numel l * numel k). rewrite IH. lia.
Qed.

Lemma numel_cons (x : Z) (l : list Z) : numel (x :: l) = x * numel l.
Proof. done. Qed.

Lemma numel_singleton (x : Z) : numel [x] = x.
Proof. change (x * 1 = x). lia. Qed.

Lemma numel_rotate (c : Z) (mid : list Z) :
  numel (mid ++ [c]) = numel (c :: mid).
Proof. rewrite numel_app, numel_singleton, numel_cons. lia. Qed.

Lemma Forall_rotate (P : Z → Prop) (n c : Z) (mid : list Z) :
  Forall P (n :: c :: mid) → Forall P (n :: mid ++ [c]).
Proof.
  intros H. apply Forall_cons_1 in H as [Hn H].
  apply Forall_cons_1 in H as [Hc H].
  constructor; [done|]. apply Forall_app. split; [done|].
  by constructor.
Qed.

Lemma Forall_unrotate (P : Z → Prop) (n c : Z) (mid : list Z) :
  Forall P (n :: mid ++ [c]) → Forall P (n :: c :: mid).
Proof.
  intros H. apply Forall_cons_1 in H as [Hn H].
  apply Forall_app in H as [Hmid Hc].
  apply Forall_cons_1 in Hc as [Hc _].
  constructor; [done|]. by constructor.
Qed.

(** Positive extents that fit an [int]. *)
Lemma bounded_in_range (l : list Z) :
  Forall (λ d, 0 < d <= Int32.int_max) l → Forall Int32.in_range l.
Proof.
  apply Forall_impl. intros d Hd.
  unfold Int32.in_range, Int32.int_min, Int32.int_max in *. lia.
Qed.

Lemma bounded_pos (l : list Z) :
  Forall (λ d, 0 < d <= Int32.int_max) l → Forall (λ d, 0 < d) l.
Proof. apply Forall_impl. intros d Hd. lia. Qed.

Lemma narrow_bounded (l : list Z) :
  Forall (λ d, 0 < d <= Int32.int_max) l → Vec.narrow l = l.
Proof. intros H. by apply narrow_in_range, bounded_in_range. Qed.

Lemma NHWC2NCHW_Y_dims_fit (n c : Z) (mid : list Z) :
  Forall Int32.in_range (n :: mid ++ [c]) →
  NHWC2NCHW_Y_dims (n :: mid ++ [c]) = Ok (n :: c :: mid).
Proof.
  intros Hfit. rewrite NHWC2NCHW_Y_dims_app.
  rewrite narrow_in_range; [done|]. by apply Forall_unrotate.
Qed.

Lemma NCHW2NHWC_Y_dims_fit (n c : Z) (rest : list Z) :
  Forall Int32.in_range (n :: c :: rest) →
  NCHW2NHWC_Y_dims (n :: c :: rest) = Ok (n :: rest ++ [c]).
Proof.
  intros Hfit. rewrite NCHW2NHWC_Y_dims_cons.
  rewrite narrow_in_range; [done|]. by apply Forall_rotate.
Qed.

(** ** Output shape calculator *)

(** C2, as amended: for a dimension list of rank [r >= 3] whose extents
    fit a 32-bit [int] the channel-last to channel-second direction
    returns [[dims[0]; dims[r-1]; dims[1]; ...; dims[r-2]]] and the
    channel-second to channel-last direction returns
    [[dims[0]; dims[2]; ...; dims[r-1]; dims[1]]]: the batch extent stays
    at index 0 and the spatial extents keep their order. *)
Theorem C2_output_shape (dims : list Z) :
  (3 <= length dims)%nat →
  Forall Int32.in_range dims →
  computeOutputShape NHWC2NCHW dims
  = Ok (dims !!! 0%nat :: dims !!! (length dims - 1)%nat
        :: take (length dims - 2) (drop 1 dims))
  ∧ computeOutputShape NCHW2NHWC dims
    = Ok (dims !!! 0%nat :: drop 2 dims ++ [dims !!! 1%nat]).
Proof.
  intros Hlen Hfit. split.
  - destruct (rank2_split dims) as (n & mid & c & ->); [lia|].
    unfold computeOutputShape. rewrite NHWC2NCHW_Y_dims_app.
    rewrite narrow_in_range.
    2:{ by apply Forall_unrotate. }
    assert (HlenX : length (n :: mid ++ [c]) = S (S (length mid))).
    { simpl. rewrite length_app. simpl. lia. }
    rewrite HlenX.
    replace (S (S (length mid)) - 1)%nat with (S (length mid)) by lia.
    replace (S (S (length mid)) - 2)%nat with (length mid) by lia.
    change (drop 1 (n :: mid ++ [c])) with (mid ++ [c]).
    rewrite take_app_length.
    change ((n :: mid ++ [c]) !!! S (length mid))
      with ((mid ++ [c]) !!! length mid).
    rewrite lookup_total_app_r by lia. by rewrite Nat.sub_diag.
  - destruct dims as [|n [|c rest]]; simpl in Hlen; try lia.
    unfold computeOutputShape. rewrite NCHW2NHWC_Y_dims_cons.
    rewrite narrow_in_range; [done|]. by apply Forall_rotate.
Qed.

Lemma C2_output_shape_witness :
  ((3 <= length [2; 5; 7; 3]%Z)%nat ∧ Forall Int32.in_range [2; 5; 7; 3])
  ∧ computeOutputShape NHWC2NCHW [2; 5; 7; 3] = Ok [2; 3; 5; 7]
  ∧ computeOutputShape NCHW2NHWC [2; 5; 7; 3] = Ok [2; 7; 3; 5].
Proof.
  assert (Hrank : (3 <= length [2; 5; 7; 3]%Z)%nat) by (simpl; lia).
  assert (Hfit : Forall Int32.in_range [2; 5; 7; 3])
    by (repeat constructor; unfold Int32.int_min, Int32.int_max; lia).
  split; [done|].
  exact (C2_output_shape [2; 5; 7; 3] Hrank Hfit).
Defined.

(** C2 as stated fails for an extent that does not fit an [int]: the
    extents [(1, 4294967298, 3)] are narrowed to [(1, 2, 3)] before the
    output shape is built, so the channel-last to channel-second output is
    [(1, 3, 2)] and not [(1, 3, 4294967298)]. *)
Lemma C2_narrowing_counterexample :
  let dims := [1; 4294967298; 3] in
  ¬ (computeOutputShape NHWC2NCHW dims
     = Ok (dims !!! 0%nat :: dims !!! (length dims - 1)%nat
           :: take (length dims - 2) (drop 1 dims))
     ∧ computeOutputShape NCHW2NHWC dims
       = Ok (dims !!! 0%nat :: drop 2 dims ++ [dims !!! 1%nat])).
Proof. intros dims [H _]. vm_compute in H. discriminate H. Qed.

Example C2_narrowed_output :
  computeOutputShape NHWC2NCHW [1; 4294967298; 3] = Ok [1; 3; 2]
  ∧ computeOutputShape NCHW2NHWC [1; 4294967298; 3] = Ok [1; 3; 2].
Proof. done. Qed.

(** C3, as amended: for a dimension list of rank at least 3 whose
    extents fit a 32-bit [int], and either direction, the output
    dimension list has the length of the input and the same product of
    extents. *)
Theorem C3_length_and_numel_preserved (d : Direction) (dims : list Z) :
  (3 <= length dims)%nat →
  Forall Int32.in_range dims →
  ∃ out, computeOutputShape d dims = Ok out
         ∧ length out = length dims
         ∧ numel out = numel dims.
Proof.
  intros Hlen Hfit. destruct d; simpl.
  - destruct (rank2_split dims) as (n & mid & c & ->); [lia|].
    exists (n :: c :: mid). rewrite NHWC2NCHW_Y_dims_app.
    rewrite narrow_in_range.
    2:{ by apply Forall_unrotate. }
    split; [done|]. split.
    + simpl. rewrite length_app. simpl. lia.
    + rewrite !numel_cons, numel_app, numel_singleton. lia.
  - destruct dims as [|n [|c rest]]; simpl in Hlen; try lia.
    exists (n :: rest ++ [c]). rewrite NCHW2NHWC_Y_dims_cons.
    rewrite narrow_in_range.
    2:{ by apply Forall_rotate. }
    split; [done|]. split.
    + simpl. rewrite length_app. simpl. lia.
    + rewrite !numel_cons, numel_app, numel_singleton. lia.
Qed.

Lemma C3_length_and_numel_preserved_witness :
  ((3 <= length [2; 3; 5; 7]%Z)%nat ∧ Forall Int32.in_range [2; 3; 5; 7])
  ∧ ∃ out, computeOutputShape NCHW2NHWC [2; 3; 5; 7] = Ok out
           ∧ length out = length [2; 3; 5; 7]
           ∧ numel out = numel [2; 3; 5; 7].
Proof.
  assert (Hrank : (3 <= length [2; 3; 5; 7]%Z)%nat) by (simpl; lia).
  assert (Hfit : Forall Int32.in_range [2; 3; 5; 7])
    by (repeat constructor; unfold Int32.int_min, Int32.int_max; lia).
  split; [done|].
  exact (C3_length_and_numel_preserved NCHW2NHWC [2; 3; 5; 7] Hrank Hfit).
Defined.

(** C3 as stated fails for an extent that does not fit an [int]: the
    extents [(1, 4294967298, 3)] have the product 12884901894, the
    output shape [(1, 3, 2)] built from their narrowed copy has the
    product 6. *)
Lemma C3_narrowing_counterexample :
  let dims := [1; 4294967298; 3] in
  ¬ ∃ out, computeOutputShape NHWC2NCHW dims = Ok out
           ∧ length out = length dims
           ∧ numel out = numel dims.
Proof.
  intros dims (out & Hout & _ & Hnumel).
  vm_compute in Hout. injection Hout as <-.
  vm_compute in Hnumel. discriminate Hnumel.
Qed.

(** ** Exact products *)

Lemma mul_exact (a b : Z) :
  0 < a → 0 < b → a * b <= Int32.int_max → a *i b = a * b.
Proof.
  intros Ha Hb Hab. unfold Int32.mul. apply wrap_in_range.
  unfold Int32.in_range, Int32.int_min, Int32.int_max in *. nia.
Qed.

Lemma numel_pos (l : list Z) : Forall (λ d, 0 < d) l → 0 < numel l.
Proof.
  induction 1 as [|x l Hx _ IH]; [done|]. rewrite numel_cons. nia.
Qed.

Lemma accumulate_mul_exact (rng : list Z) (init : Z) :
  Forall (λ d, 0 < d) rng → 0 < init →
  init * numel rng <= Int32.int_max →
  Vec.accumulate rng init Int32.mul = init * numel rng.
Proof.
  unfold Vec.accumulate. intros Hpos. revert init.
  induction Hpos as [|x l Hx Hl IH]; intros init Hinit Hle.
  - change (init = init * 1). lia.
  - rewrite numel_cons in Hle |- *. pose proof (numel_pos l Hl) as Hn.
    change (fold_left Int32.mul (x :: l) init)
      with (fold_left Int32.mul l (init *i x)).
    rewrite mul_exact; [|done|done|nia].
    rewrite IH; [lia|nia|nia].
Qed.

Lemma le_mul_pos_l (a b : Z) : 0 < a → 0 < b → b <= a * b.
Proof. intros Ha Hb. nia. Qed.

(** Under positive factors every partial product of C, H, W, D is
    bounded by the whole product. *)
Lemma partial_products_bounded (c h w D M : Z) :
  0 < c → 0 < h → 0 < w → 0 < D → c * (h * (w * D)) <= M →
  D <= M ∧ w * D <= M ∧ h * (w * D) <= M
  ∧ c * h <= M ∧ c * h * w <= M ∧ h * w <= M ∧ D * c <= M
  ∧ w * D * c <= M.
Proof.
  intros Hc Hh Hw HD HM.
  assert (0 < w * D) by lia.
  assert (0 < h * (w * D)) by lia.
  assert (0 < h * w) by lia.
  assert (0 < c * h) by lia.
  pose proof (le_mul_pos_l w D).
  pose proof (le_mul_pos_l h (w * D)).
  pose proof (le_mul_pos_l c (h * (w * D))).
  pose proof (le_mul_pos_l D (c * h)).
  pose proof (le_mul_pos_l w (c * h)).
  pose proof (le_mul_pos_l D (c * h * w)).
  pose proof (le_mul_pos_l D (h * w)).
  pose proof (le_mul_pos_l c (h * w * D)).
  pose proof (le_mul_pos_l h (D * c)).
  pose proof (le_mul_pos_l w (D * c)).
  pose proof (le_mul_pos_l h (w * D * c)).
  repeat split; nia.
Qed.

Lemma Vec_back_snoc (v : list Z) (c : Z) : Vec.back (v ++ [c]) = Ok c.
Proof.
  unfold Vec.back. apply Vec_at_Ok.
  - rewrite Vec_size_snoc. pose proof (Vec_size_nonneg v). lia.
  - rewrite Vec_size_snoc. unfold Vec.size.
    replace (Z.to_nat (Z.of_nat (length v) + 1 - 1)) with (length v) by lia.
    rewrite lookup_app_r by lia. by rewrite Nat.sub_diag.
Qed.

(** The descriptor of a channel-second list of rank at least 5. *)
Lemma SetTensorDescriptor_NCHW_5 ty (n c h w x : Z) (rest : list Z) :
  Forall (λ d, 0 < d) (c :: h :: w :: x :: rest) →
  numel (c :: h :: w :: x :: rest) <= Int32.int_max →
  let D := numel (x :: rest) in
  SetTensorDescriptor ty NCHW (n :: c :: h :: w :: x :: rest)
  = Ok (mkDesc ty 5 [n; c; h; w; D]
          [c * h * w * D; h * w * D; w * D; D; 1]).
Proof.
  intros Hpos Hle D.
  apply Forall_cons_1 in Hpos as [Hc Hpos].
  apply Forall_cons_1 in Hpos as [Hh Hpos].
  apply Forall_cons_1 in Hpos as [Hw Hpos].
  pose proof (numel_pos _ Hpos) as HD. fold D in HD.
  rewrite !numel_cons in Hle. fold (numel (x :: rest)) in Hle.
  change (x * numel rest) with D in Hle.
  unfold SetTensorDescriptor.
  rewrite !Vec_size_cons. pose proof (Vec_size_nonneg rest) as Hsz.
  simpl. rewrite !decide_False by lia.
  rewrite Vec_range_Ok; [|lia|rewrite !Vec_size_cons; lia].
  simpl mbind.
  replace (take _ _) with (x :: rest).
  2:{ change (drop (Z.to_nat 4) (n :: c :: h :: w :: x :: rest))
        with (x :: rest).
      rewrite take_ge; [done|]. unfold Vec.size. simpl. lia. }
  destruct (partial_products_bounded c h w D _ Hc Hh Hw HD Hle)
    as (? & ? & ? & ? & ? & ? & ? & ?).
  rewrite accumulate_mul_exact; [|done|done|fold D; lia].
  fold D. rewrite Z.mul_1_l.
  unfold cudnnSetTensorNdDescriptor, mret, result_ret.
  rewrite (mul_exact c h) by lia.
  rewrite (mul_exact (c * h) w) by lia.
  rewrite (mul_exact (c * h * w) D) by lia.
  rewrite (mul_exact h w) by lia.
  rewrite (mul_exact (h * w) D) by lia.
  rewrite (mul_exact w D) by lia.
  done.
Qed.

(** The descriptor of a channel-last list of rank at least 5. *)
Lemma SetTensorDescriptor_NHWC_5 ty (n h w x c : Z) (mid : list Z) :
  Forall (λ d, 0 < d) (h :: w :: (x :: mid) ++ [c]) →
  numel (h :: w :: (x :: mid) ++ [c]) <= Int32.int_max →
  let D := numel (x :: mid) in
  SetTensorDescriptor ty NHWC (n :: h :: w :: (x :: mid) ++ [c])
  = Ok (mkDesc ty 5 [n; c; h; w; D]
          [c * h * w * D; 1; w * D * c; D * c; c]).
Proof.
  intros Hpos Hle D.
  apply Forall_cons_1 in Hpos as [Hh Hpos].
  apply Forall_cons_1 in Hpos as [Hw Hpos].
  apply Forall_app in Hpos as [Hsp Hc].
  apply Forall_cons_1 in Hc as [Hc _].
  pose proof (numel_pos _ Hsp) as HD. fold D in HD.
  rewrite !numel_cons, numel_app, numel_singleton in Hle.
  fold (numel (x :: mid)) in Hle. change (x * numel mid) with D in Hle.
  assert (Hle' : c * (h * (w * D)) <= Int32.int_max) by lia.
  destruct (partial_products_bounded c h w D _ Hc Hh Hw HD Hle')
    as (? & ? & ? & ? & ? & ? & ? & ?).
  set (X := n :: h :: w :: (x :: mid) ++ [c]).
  assert (Hback : Vec.back X = Ok c)
    by apply (Vec_back_snoc (n :: h :: w :: x :: mid)).
  assert (Hsz : Vec.size X = Vec.size mid + 5).
  { unfold X. change (n :: h :: w :: (x :: mid) ++ [c])
      with (n :: h :: w :: x :: (mid ++ [c])).
    rewrite !Vec_size_cons, Vec_size_snoc. lia. }
  pose proof (Vec_size_nonneg mid) as Hmid.
  assert (Hrng : Vec.range X 3 (Vec.size mid + 5 - 1) = Ok (x :: mid)).
  { rewrite Vec_range_Ok by lia. f_equal.
    change (drop (Z.to_nat 3) X) with ((x :: mid) ++ [c]).
    replace (Z.to_nat (Vec.size mid + 5 - 1 - 3)) with (length (x :: mid))
      by (unfold Vec.size; simpl; lia).
    by rewrite take_app_length. }
  unfold SetTensorDescriptor. cbv zeta.
  rewrite !(decide_False (P := NHWC = NCHW)) by done.
  rewrite Hback, Hsz, Hrng.
  unfold X. simpl. rewrite !decide_False by lia. simpl.
  change (Vec.accumulate mid (1 *i x) Int32.mul)
    with (Vec.accumulate (x :: mid) 1 Int32.mul).
  rewrite accumulate_mul_exact; [|done|done|fold D; lia].
  fold D. rewrite Z.mul_1_l.
  unfold cudnnSetTensorNdDescriptor, mret, result_ret.
  rewrite (mul_exact c h) by lia.
  rewrite (mul_exact (c * h) w) by lia.
  rewrite (mul_exact (c * h * w) D) by lia.
  rewrite (mul_exact w D) by lia.
  rewrite (mul_exact (w * D) c) by lia.
  rewrite (mul_exact D c) by lia.
  done.
Qed.

(** C1, as amended: for a dimension list of rank [r >= 5] whose extents
    are positive and whose per-sample element count (the product of all
    extents but the first) fits a 32-bit [int], the descriptor has the
    five axes N = [dims[0]], C = [dims[1]] (channel-second) or
    [dims[r-1]] (channel-last), H and W from positions 2, 3
    (channel-second) or 1, 2 (channel-last), and D the product of
    [dims[4..r)] (channel-second) or [dims[3..r-1)] (channel-last); the
    channel-last strides are stride(N) = C*H*W*D, stride(C) = 1,
    stride(H) = W*D*C, stride(W) = D*C, stride(D) = C. *)
Theorem C1_rank5_descriptor ty order (dims : list Z) :
  (5 <= length dims)%nat →
  Forall (λ d, 0 < d) dims →
  numel (drop 1 dims) <= Int32.int_max →
  let r := length dims in
  let N := dims !!! 0%nat in
  let C := if decide (order = NCHW) then dims !!! 1%nat
           else dims !!! (r - 1)%nat in
  let H := if decide (order = NCHW) then dims !!! 2%nat
           else dims !!! 1%nat in
  let W := if decide (order = NCHW) then dims !!! 3%nat
           else dims !!! 2%nat in
  let D := numel (if decide (order = NCHW) then drop 4 dims
                  else take (r - 4) (drop 3 dims)) in
  SetTensorDescriptor ty order dims
  = Ok (mkDesc ty 5 [N; C; H; W; D]
          (if decide (order = NCHW)
           then [C * H * W * D; H * W * D; W * D; D; 1]
           else [C * H * W * D; 1; W * D * C; D * C; C])).
Proof.
  intros Hrank Hpos Hle.
  destruct dims as [|n [|d1 [|d2 [|d3 [|d4 rest]]]]]; simpl in Hrank; try lia.
  apply Forall_cons_1 in Hpos as [_ Hpos].
  change (drop 1 (n :: d1 :: d2 :: d3 :: d4 :: rest))
    with (d1 :: d2 :: d3 :: d4 :: rest) in Hle.
  destruct order.
  - (* channel-last: split off the trailing channel extent *)
    destruct (rank2_split (d3 :: d4 :: rest)) as (x & mid & c & Heq);
      [simpl; lia|].
    injection Heq as -> Heq. rewrite Heq in *. clear Heq Hrank.
    intros r N C H W D.
    assert (Hr : r = S (S (S (S (S (length mid)))))).
    { unfold r. simpl. rewrite length_app. simpl. lia. }
    assert (HC : C = c).
    { unfold C. rewrite decide_False by done. rewrite Hr.
      replace (S (S (S (S (S (length mid))))) - 1)%nat
        with (S (S (S (S (length mid))))) by lia.
      change (_ !!! _) with ((mid ++ [c]) !!! length mid).
      rewrite lookup_total_app_r by lia. by rewrite Nat.sub_diag. }
    assert (HD : D = numel (x :: mid)).
    { unfold D. rewrite decide_False by done. rewrite Hr.
      replace (S (S (S (S (S (length mid))))) - 4)%nat
        with (length (x :: mid)) by (simpl; lia).
      change (drop 3 _) with ((x :: mid) ++ [c]).
      by rewrite take_app_length. }
    rewrite decide_False by done. rewrite HC, HD.
    apply (SetTensorDescriptor_NHWC_5 ty n d1 d2 x c mid Hpos Hle).
  - apply (SetTensorDescriptor_NCHW_5 ty n d1 d2 d3 d4 rest Hpos Hle).
Qed.

Lemma C1_rank5_descriptor_witness :
  ((5 <= length [2; 3; 4; 5; 6; 7])%nat
   ∧ Forall (λ d, 0 < d) [2; 3; 4; 5; 6; 7]
   ∧ numel (drop 1 [2; 3; 4; 5; 6; 7]) <= Int32.int_max)
  ∧ SetTensorDescriptor CUDNN_DATA_HALF NHWC [2; 3; 4; 5; 6; 7]
    = Ok (mkDesc CUDNN_DATA_HALF 5 [2; 7; 3; 4; 30] [2520; 1; 840; 210; 7]).
Proof.
  assert (Hrank : (5 <= length [2; 3; 4; 5; 6; 7])%nat) by (simpl; lia).
  assert (Hpos : Forall (λ d, 0 < d) [2; 3; 4; 5; 6; 7])
    by (repeat constructor).
  assert (Hle : numel (drop 1 [2; 3; 4; 5; 6; 7]) <= Int32.int_max)
    by (vm_compute; discriminate).
  split; [done|].
  exact (C1_rank5_descriptor CUDNN_DATA_HALF NHWC [2; 3; 4; 5; 6; 7]
           Hrank Hpos Hle).
Defined.

(** C1 as stated fails where the product leaves the range of [int]: for
    the channel-second list [(1, 1, 1, 1, 65536, 32768)] the product of
    [dims[4..r)] is [2^31], which the [int] extent D cannot hold. *)
Lemma C1_overflow_counterexample :
  ¬ ∃ desc,
      SetTensorDescriptor CUDNN_DATA_HALF NCHW [1; 1; 1; 1; 65536; 32768]
      = Ok desc
      ∧ dimA desc !! 4%nat = Some (numel [65536; 32768]).
Proof.
  intros (desc & Hd & HD). vm_compute in Hd. injection Hd as <-.
  vm_compute in HD. discriminate HD.
Qed.

(** ** Descriptors of small examples *)

(** C5 as stated fails: neither descriptor of the example has
    D = D2 * D3 = 10. *)
Lemma C5_collapse_counterexample :
  ¬ (computeOutputShape NCHW2NHWC [2; 4; 3; 5; 2] = Ok [2; 3; 5; 2; 4]
     ∧ ∃ xd yd,
         SetTensorDescriptor CUDNN_DATA_FLOAT NCHW [2; 4; 3; 5; 2] = Ok xd
         ∧ SetTensorDescriptor CUDNN_DATA_FLOAT NHWC [2; 3; 5; 2; 4] = Ok yd
         ∧ dimA xd !! 4%nat = Some (5 * 2)
         ∧ dimA yd !! 4%nat = Some (5 * 2)).
Proof.
  intros (_ & xd & yd & Hx & _ & HD & _).
  vm_compute in Hx. injection Hx as <-. vm_compute in HD. discriminate HD.
Qed.

(** C6, as amended: at rank 3 the descriptor has four axes with H = 1;
    W is [dims[2]] for channel-second and [dims[1]] for channel-last; an
    input of shape [(N, 3, 8)] whose batch extent N fits a 32-bit [int]
    converts channel-second to channel-last into the shape [(N, 8, 3)]. *)
Theorem C6_rank3_descriptor (ty : cudnnDataType_t) (d0 d1 d2 : Z) :
  SetTensorDescriptor ty NCHW [d0; d1; d2]
  = Ok (mkDesc ty 4 [d0; d1; 1; d2] [d1 *i 1 *i d2; 1 *i d2; d2; 1])
  ∧ SetTensorDescriptor ty NHWC [d0; d1; d2]
    = Ok (mkDesc ty 4 [d0; d2; 1; d1] [1 *i d1 *i d2; 1; d1 *i d2; d2])
  ∧ (Int32.in_range d0 →
     computeOutputShape NCHW2NHWC [d0; 3; 8] = Ok [d0; 8; 3]).
Proof.
  split; [done|]. split; [done|]. intros Hd0.
  unfold computeOutputShape.
  rewrite (NCHW2NHWC_Y_dims_cons d0 3 [8]).
  rewrite narrow_in_range; [done|]. cbn [app].
  repeat (apply Forall_cons_2;
          [first [done
                 |unfold Int32.in_range, Int32.int_min, Int32.int_max; lia]|]).
  apply Forall_nil_2.
Qed.

Lemma C6_rank3_descriptor_witness :
  Int32.in_range 5
  ∧ SetTensorDescriptor CUDNN_DATA_FLOAT NCHW [5; 3; 8]
    = Ok (mkDesc CUDNN_DATA_FLOAT 4 [5; 3; 1; 8] [24; 8; 8; 1])
  ∧ SetTensorDescriptor CUDNN_DATA_FLOAT NHWC [5; 3; 8]
    = Ok (mkDesc CUDNN_DATA_FLOAT 4 [5; 8; 1; 3] [24; 1; 24; 8])
  ∧ computeOutputShape NCHW2NHWC [5; 3; 8] = Ok [5; 8; 3].
Proof.
  assert (Hfit : Int32.in_range 5)
    by (unfold Int32.in_range, Int32.int_min, Int32.int_max; lia).
  split; [done|].
  destruct (C6_rank3_descriptor CUDNN_DATA_FLOAT 5 3 8) as (Hx & Hy & Hout).
  split; [exact Hx|]. split; [exact Hy|]. exact (Hout Hfit).
Defined.

(** C6 as stated fails for a batch extent that does not fit an [int]:
    the input [(4294967297, 3, 8)] has the output shape [(1, 8, 3)]. *)
Lemma C6_narrowing_counterexample :
  computeOutputShape NCHW2NHWC [4294967297; 3; 8] ≠ Ok [4294967297; 8; 3].
Proof. intros H. vm_compute in H. discriminate H. Qed.

(** ** The executor *)

Section Executor.
Context {elem : Type}.
Implicit Types (X : Tensor elem) (w : World elem).

Lemma DoRunWithType_hit_self d T X w :
  cached_X_dims_ (self w) = Vec.narrow (sizes X) →
  self (DoRunWithType d T X w).1 = self w.
Proof.
  intros Hhit. unfold DoRunWithType, mbind, Op_bind, lift.
  destruct (computeOutputShape d (sizes X)) as [Y_dims|e]; [|done].
  simpl. rewrite decide_False by (intros Hne; by apply Hne).
  unfold mret, Op_ret, TransformTensor. simpl.
  by destruct (cudnnTransformTensor _ _ _ _).
Qed.

Lemma RunOnDevice_hit_self d X w :
  cached_X_dims_ (self w) = Vec.narrow (sizes X) →
  self (RunOnDevice d X w).1 = self w.
Proof.
  intros Hhit. unfold RunOnDevice.
  destruct (meta X); try done; by apply DoRunWithType_hit_self.
Qed.

(** Which failures the pieces of a run can raise. *)
Lemma computeOutputShape_failures d dims e :
  computeOutputShape d dims = Err e → e = OutOfBounds.
Proof.
  destruct d; simpl;
    unfold NHWC2NCHW_Y_dims, NCHW2NHWC_Y_dims, dim32, Vec.at_, mbind,
      result_bind, mret, result_ret;
    intros He; repeat case_match; simplify_eq; auto.
Qed.

Lemma SetTensorDescriptor_failures ty order dims e :
  SetTensorDescriptor ty order dims = Err e → e = OutOfBounds.
Proof.
  unfold SetTensorDescriptor, mbind, mret, result_bind, result_ret,
    Vec.back, Vec.at_, Vec.range.
  intros He; repeat case_match; simplify_eq; auto.
Qed.

Lemma DoRunWithType_failures d T X w e :
  (DoRunWithType d T X w).2 = Err e →
  e = OutOfBounds ∨ e = TransformFailure.
Proof.
  unfold DoRunWithType, mbind, mret, Op_bind, Op_ret, lift, Resize,
    get_cached_X_dims, set_cached_X_dims, set_X_desc, set_Y_desc,
    TransformTensor, cudnnTransformTensor.
  destruct (computeOutputShape d (sizes X)) as [Y_dims|e0] eqn:HY; simpl.
  2:{ intros [= ->]. apply computeOutputShape_failures in HY. tauto. }
  destruct (decide (cached_X_dims_ (self w) ≠ Vec.narrow (sizes X))); simpl.
  - destruct (SetTensorDescriptor _ _ (Vec.narrow (sizes X)))
      as [xd|e1] eqn:Hxd; simpl.
    2:{ intros [= ->]. apply SetTensorDescriptor_failures in Hxd. auto. }
    destruct (SetTensorDescriptor _ _ Y_dims) as [yd|e2] eqn:Hyd; simpl.
    2:{ intros [= ->]. apply SetTensorDescriptor_failures in Hyd. auto. }
    case_decide; simpl; [done|]. intros [= <-]. auto.
  - case_decide; simpl; [done|]. intros [= <-]. auto.
Qed.

Lemma RunOnDevice_never_RankError d X w :
  (RunOnDevice d X w).2 ≠ Err RankError.
Proof.
  unfold RunOnDevice.
  destruct (meta X); simpl; try done;
    intros He; apply DoRunWithType_failures in He;
    destruct He as [?|?]; done.
Qed.

(** C7: a second call whose dimension list [X_dims], the [int] copy of
    the sizes of its input, equals the cached one leaves the instance
    state (cached dimension list and both descriptors) as the first call
    left it. *)
Theorem C7_cache_hit_keeps_state d X X' w :
  let w1 := (RunOnDevice d X w).1 in
  Vec.narrow (sizes X') = cached_X_dims_ (self w1) →
  self (RunOnDevice d X' w1).1 = self w1.
Proof. intros w1 Hsame. by apply RunOnDevice_hit_self. Qed.

(** C10: the cache is keyed on the dimension list alone.  A call whose
    dimension list [X_dims], the [int] copy of the sizes of its input,
    equals the cached one leaves both descriptors, their element-type
    tags included, as they were, whatever element type the call's input
    carries. *)
Theorem C10_cache_ignores_element_type d X w (m : TypeMeta) :
  Vec.narrow (sizes X) = cached_X_dims_ (self w) →
  let X' := mkTensor (sizes X) m (data X) in
  let w' := (RunOnDevice d X' w).1 in
  X_desc_ (self w') = X_desc_ (self w)
  ∧ Y_desc_ (self w') = Y_desc_ (self w)
  ∧ dataType (X_desc_ (self w')) = dataType (X_desc_ (self w))
  ∧ dataType (Y_desc_ (self w')) = dataType (Y_desc_ (self w)).
Proof.
  intros Hsame X' w'.
  assert (Hself : self w' = self w)
    by (by apply RunOnDevice_hit_self).
  by rewrite Hself.
Qed.

(** C9: an input whose element type is neither [float] nor [at::Half]
    makes the run fail with [UnsupportedTypeError]; an input of one of
    these two types never does. *)
Theorem C9_unsupported_type d X w :
  if supported (meta X)
  then (RunOnDevice d X w).2 ≠ Err UnsupportedTypeError
  else (RunOnDevice d X w).2 = Err UnsupportedTypeError.
Proof.
  unfold RunOnDevice.
  destruct (meta X); simpl; try done;
    intros He; apply DoRunWithType_failures in He;
    destruct He as [?|?]; done.
Qed.

Lemma RunOnDevice_supported d X w :
  supported (meta X) = true →
  ∃ T, RunOnDevice d X w = DoRunWithType d T X w.
Proof.
  unfold RunOnDevice. destruct (meta X); try done; eauto.
Qed.

(** The destination of a run whose output shape exists has that
    shape, whatever the outcome of the later steps. *)
Lemma DoRunWithType_resized d T X w (Y_dims : list Z) :
  computeOutputShape d (sizes X) = Ok Y_dims →
  sizes (output (DoRunWithType d T X w).1) = Y_dims.
Proof.
  intros HY.
  unfold DoRunWithType, mbind, mret, Op_bind, Op_ret, lift, Resize,
    get_cached_X_dims, set_cached_X_dims, set_X_desc, set_Y_desc,
    TransformTensor.
  rewrite HY. simpl.
  destruct (decide (cached_X_dims_ (self w) ≠ Vec.narrow (sizes X))); simpl.
  - destruct (SetTensorDescriptor _ _ (Vec.narrow (sizes X))); simpl;
      [|done].
    destruct (SetTensorDescriptor _ _ Y_dims); simpl; [|done].
    by destruct (cudnnTransformTensor _ _ _ _).
  - by destruct (cudnnTransformTensor _ _ _ _).
Qed.

(** C4, as amended: an input of rank below 3 never makes the run fail
    with [RankError], because the rank is not validated; a rank-2 input
    of a supported element type has its destination resized, to the
    [int] copy of [[dims[0]; dims[1]]]. *)
Theorem C4_no_rank_check d X w :
  (length (sizes X) < 3)%nat →
  (RunOnDevice d X w).2 ≠ Err RankError
  ∧ (length (sizes X) = 2%nat →
     supported (meta X) = true →
     sizes (output (RunOnDevice d X w).1) = Vec.narrow (sizes X)).
Proof.
  intros Hrank. split; [apply RunOnDevice_never_RankError|].
  intros Hlen Hsup.
  destruct (RunOnDevice_supported d X w Hsup) as [T ->].
  apply DoRunWithType_resized.
  destruct (sizes X) as [|a [|b [|? ?]]]; try done.
  by destruct d.
Qed.

End Executor.

Lemma C4_no_rank_check_witness :
  let X := mkTensor [2; 3] Meta_float (λ o : Z, o) in
  let X1 := mkTensor [5] Meta_float (λ o : Z, o) in
  let w := mkWorld CuDNNOrderSwithOpBase (mkTensor [] Meta_float (λ _, 0)) in
  ((length (sizes X) < 3)%nat
   ∧ length (sizes X) = 2%nat
   ∧ supported (meta X) = true
   ∧ (length (sizes X1) < 3)%nat)
  ∧ (RunOnDevice NHWC2NCHW X w).2 ≠ Err RankError
  ∧ sizes (output (RunOnDevice NHWC2NCHW X w).1) = Vec.narrow (sizes X)
  ∧ (RunOnDevice NHWC2NCHW X1 w).2 ≠ Err RankError.
Proof.
  intros X X1 w.
  assert (Hrank : (length (sizes X) < 3)%nat) by (simpl; lia).
  assert (Hlen : length (sizes X) = 2%nat) by reflexivity.
  assert (Hsup : supported (meta X) = true) by reflexivity.
  assert (Hrank1 : (length (sizes X1) < 3)%nat) by (simpl; lia).
  split; [done|].
  destruct (C4_no_rank_check NHWC2NCHW X w Hrank) as [Herr Hres].
  destruct (C4_no_rank_check NHWC2NCHW X1 w Hrank1) as [Herr1 _].
  split; [exact Herr|]. split; [exact (Hres Hlen Hsup)|]. exact Herr1.
Defined.

(** C4 as stated fails: on a fresh instance the rank-2 input [(2, 3)]
    does not end in [RankError], and the destination, empty before the
    call, has been resized to [(2, 3)]. *)
Lemma C4_rank2_counterexample :
  let X := mkTensor [2; 3] Meta_float (λ o : Z, o) in
  let w := mkWorld CuDNNOrderSwithOpBase (mkTensor [] Meta_float (λ _, 0)) in
  ¬ ((RunOnDevice NHWC2NCHW X w).2 = Err RankError
     ∧ sizes (output (RunOnDevice NHWC2NCHW X w).1) = sizes (output w)).
Proof. intros X w [Hr _]. vm_compute in Hr. discriminate Hr. Qed.

Example C4_rank2_resized_first :
  let X := mkTensor [2; 3] Meta_float (λ o : Z, o) in
  let w := mkWorld CuDNNOrderSwithOpBase (mkTensor [] Meta_float (λ _, 0)) in
  (RunOnDevice NHWC2NCHW X w).2 = Err OutOfBounds
  ∧ sizes (output (RunOnDevice NHWC2NCHW X w).1) = [2; 3].
Proof. done. Qed.

Lemma C7_cache_hit_keeps_state_witness :
  let X := mkTensor [2; 5; 7; 3] Meta_float (λ o : Z, o) in
  let w := mkWorld CuDNNOrderSwithOpBase (mkTensor [] Meta_float (λ _, 0)) in
  let w1 := (RunOnDevice NHWC2NCHW X w).1 in
  Vec.narrow (sizes X) = cached_X_dims_ (self w1)
  ∧ self (RunOnDevice NHWC2NCHW X w1).1 = self w1.
Proof.
  intros X w w1. split; [done|].
  by apply (C7_cache_hit_keeps_state NHWC2NCHW X X w).
Defined.

Lemma C10_cache_ignores_element_type_witness :
  let X := mkTensor [2; 5; 7; 3] Meta_float (λ o : Z, o) in
  let w := mkWorld CuDNNOrderSwithOpBase (mkTensor [] Meta_float (λ _, 0)) in
  let w1 := (RunOnDevice NHWC2NCHW X w).1 in
  let w2 := (RunOnDevice NHWC2NCHW (mkTensor (sizes X) Meta_Half (data X))
               w1).1 in
  Vec.narrow (sizes X) = cached_X_dims_ (self w1)
  ∧ X_desc_ (self w2) = X_desc_ (self w1)
  ∧ Y_desc_ (self w2) = Y_desc_ (self w1)
  ∧ dataType (X_desc_ (self w2)) = dataType (X_desc_ (self w1))
  ∧ dataType (Y_desc_ (self w2)) = dataType (Y_desc_ (self w1)).
Proof.
  intros X w w1 w2. split; [done|].
  by apply (C10_cache_ignores_element_type NHWC2NCHW X w1 Meta_Half).
Defined.

(** ** Strided relayout *)

Section Relayout.
Context {elem : Type}.
Implicit Types (x y : Z → elem) (dims idx strides : list Z).

Lemma elem_of_box idx dims : idx ∈ Mem.box dims ↔ in_box idx dims.
Proof.
  revert idx. induction dims as [|d dims IH]; intros idx; simpl.
  - rewrite list_elem_of_singleton. split.
    + intros ->. constructor.
    + intros Hb. by inversion Hb.
  - rewrite list_elem_of_bind. split.
    + intros (i & Hin & Hi). rewrite list_elem_of_fmap in Hin.
      destruct Hin as (idx' & -> & Hidx'). rewrite elem_of_seqZ in Hi.
      constructor; [lia|]. by apply IH.
    + intros Hb. inversion Hb as [|i ? idx' ? Hi Hidx']; subst.
      exists i. split.
      * rewrite list_elem_of_fmap. exists idx'. split; [done|]. by apply IH.
      * rewrite elem_of_seqZ. lia.
Qed.

Lemma upd_eq (m : Z → elem) k v : Mem.upd m k v k = v.
Proof. unfold Mem.upd. by rewrite bool_decide_true. Qed.

Lemma upd_ne (m : Z → elem) k v o : o ≠ k → Mem.upd m k v o = m o.
Proof. intros Hne. unfold Mem.upd. by rewrite bool_decide_false. Qed.

(** One pass writes, at the destination offset of every index tuple,
    the source element of that tuple. *)
Lemma relayout_at dims xs ys x y idx :
  injective_on dims ys → in_box idx dims →
  Mem.relayout dims xs ys x y (Mem.offset idx ys)
  = x (Mem.offset idx xs).
Proof.
  intros Hinj Hidx. unfold Mem.relayout.
  assert (Hall : ∀ i, i ∈ Mem.box dims → in_box i dims)
    by (intros i; apply elem_of_box).
  apply elem_of_box in Hidx. revert Hall Hidx.
  induction (Mem.box dims) as [|a L IH] using rev_ind; intros Hall Hidx.
  - by apply elem_of_nil in Hidx.
  - rewrite fold_left_app. simpl.
    destruct (decide (Mem.offset idx ys = Mem.offset a ys)) as [Heq|Hne].
    + rewrite Heq, upd_eq.
      assert (idx = a) as ->; [|done].
      apply Hinj; [|apply Hall|done]; [apply Hall; done|].
      apply elem_of_app. right. by apply list_elem_of_singleton.
    + rewrite upd_ne by done. apply IH.
      * intros i Hi. apply Hall, elem_of_app. by left.
      * apply elem_of_app in Hidx as [Hidx|Hidx]; [done|].
        apply list_elem_of_singleton in Hidx. by subst.
Qed.

(** Relayout there and back is the identity on the covered buffer. *)
Lemma relayout_round_trip dims s1 s2 x y z n o :
  injective_on dims s1 → injective_on dims s2 → covers dims s1 n →
  0 <= o < n →
  Mem.relayout dims s2 s1 (Mem.relayout dims s1 s2 x y) z o = x o.
Proof.
  intros Hinj1 Hinj2 Hcov Ho.
  destruct (Hcov o Ho) as (idx & Hidx & <-).
  rewrite relayout_at by done. by rewrite relayout_at.
Qed.
End Relayout.

(** *** Row-major strides *)

Lemma rm_offset_range (idx dims : list Z) :
  in_box idx dims → 0 <= Mem.offset idx (rm_strides dims) < numel dims.
Proof.
  induction 1 as [|i d idx dims Hi _ IH].
  - change (0 <= 0 < 1). lia.
  - change (0 <= i * numel dims + Mem.offset idx (rm_strides dims)
            < d * numel dims). nia.
Qed.

Lemma rm_injective (dims : list Z) : injective_on dims (rm_strides dims).
Proof.
  induction dims as [|d dims IH]; intros idx idx' Hb Hb' Heq.
  - inversion Hb. by inversion Hb'.
  - inversion Hb as [|i ? tl ? Hi Htl]; subst.
    inversion Hb' as [|i' ? tl' ? Hi' Htl']; subst.
    change (i * numel dims + Mem.offset tl (rm_strides dims)
            = i' * numel dims + Mem.offset tl' (rm_strides dims)) in Heq.
    pose proof (rm_offset_range _ _ Htl) as Hr.
    pose proof (rm_offset_range _ _ Htl') as Hr'.
    assert (i = i') as -> by nia.
    f_equal. apply IH; [done|done|lia].
Qed.

Lemma rm_covers (dims : list Z) :
  Forall (λ d, 0 < d) dims →
  covers dims (rm_strides dims) (numel dims).
Proof.
  induction 1 as [|d dims Hd Hpos IH]; intros o Ho.
  - change (numel []) with 1 in Ho. exists []. split; [constructor|].
    simpl. lia.
  - rewrite numel_cons in Ho.
    pose proof (numel_pos dims Hpos) as HP.
    destruct (IH (o mod numel dims)) as (tl & Htl & Hoff).
    { apply Z.mod_pos_bound. lia. }
    exists (o / numel dims :: tl). split.
    + constructor; [|done]. split.
      * apply Z.div_pos; lia.
      * apply Z.div_lt_upper_bound; lia.
    + change (o / numel dims * numel dims
              + Mem.offset tl (rm_strides dims) = o).
      rewrite Hoff. rewrite Z.mul_comm.
      symmetry. apply Z.div_mod. lia.
Qed.

(** *** The strides of the two storage orders *)

Lemma nchw4_strides (C H W : Z) :
  [C * H * W; H * W; W; 1] = rm_strides [0; C; H; W].
Proof. unfold rm_strides, numel. simpl. repeat (f_equal; try lia). Qed.

Lemma nchw5_strides (C H W D : Z) :
  [C * H * W * D; H * W * D; W * D; D; 1] = rm_strides [0; C; H; W; D].
Proof.
  unfold rm_strides, numel. simpl. repeat (f_equal; try lia).
Qed.

Lemma rm_strides_head (d d' : Z) (dims : list Z) :
  rm_strides (d :: dims) = rm_strides (d' :: dims).
Proof. done. Qed.

Lemma nchw4_injective (N C H W : Z) :
  injective_on [N; C; H; W] [C * H * W; H * W; W; 1].
Proof.
  rewrite nchw4_strides, (rm_strides_head 0 N). apply rm_injective.
Qed.

Lemma nchw5_injective (N C H W D : Z) :
  injective_on [N; C; H; W; D] [C * H * W * D; H * W * D; W * D; D; 1].
Proof.
  rewrite nchw5_strides, (rm_strides_head 0 N). apply rm_injective.
Qed.

(** Channel-last strides address the axes in the order N, H, W, C. *)
Lemma nhwc4_offset (n c h w C H W : Z) :
  Mem.offset [n; c; h; w] [H * W * C; 1; W * C; C]
  = Mem.offset [n; h; w; c] (rm_strides [0; H; W; C]).
Proof. unfold rm_strides, numel. simpl. lia. Qed.

(** With a fifth axis the order is N, H, W, D, C. *)
Lemma nhwc5_offset (n c h w d C H W D : Z) :
  Mem.offset [n; c; h; w; d] [C * H * W * D; 1; W * D * C; D * C; C]
  = Mem.offset [n; h; w; d; c] (rm_strides [0; H; W; D; C]).
Proof. unfold rm_strides, numel. simpl. lia. Qed.

Lemma nhwc4_injective (N C H W : Z) :
  injective_on [N; C; H; W] [H * W * C; 1; W * C; C].
Proof.
  intros idx idx' Hb Hb' Heq. invert_box.
  rewrite !nhwc4_offset, !(rm_strides_head 0 N) in Heq.
  apply (rm_injective [N; H; W; C]) in Heq.
  - by simplify_eq.
  - repeat constructor; lia.
  - repeat constructor; lia.
Qed.

Lemma nhwc5_injective (N C H W D : Z) :
  injective_on [N; C; H; W; D] [C * H * W * D; 1; W * D * C; D * C; C].
Proof.
  intros idx idx' Hb Hb' Heq. invert_box.
  rewrite !nhwc5_offset, !(rm_strides_head 0 N) in Heq.
  apply (rm_injective [N; H; W; D; C]) in Heq.
  - by simplify_eq.
  - repeat constructor; lia.
  - repeat constructor; lia.
Qed.

Lemma nhwc4_covers (N C H W : Z) :
  0 < N → 0 < C → 0 < H → 0 < W →
  covers [N; C; H; W] [H * W * C; 1; W * C; C] (numel [N; H; W; C]).
Proof.
  intros HN HC HH HW o Ho.
  destruct (rm_covers [N; H; W; C]) with (o := o)
    as (idx & Hb & Hoff); [repeat constructor; lia|done|].
  invert_box.
  match goal with
  | |- ∃ _, _ ∧ _ = Mem.offset [?n; ?h; ?w; ?c] _ =>
      exists [n; c; h; w]; split;
      [repeat constructor; lia
      |by rewrite nhwc4_offset, (rm_strides_head 0 N)]
  end.
Qed.

Lemma nhwc5_covers (N C H W D : Z) :
  0 < N → 0 < C → 0 < H → 0 < W → 0 < D →
  covers [N; C; H; W; D] [C * H * W * D; 1; W * D * C; D * C; C]
         (numel [N; H; W; D; C]).
Proof.
  intros HN HC HH HW HD o Ho.
  destruct (rm_covers [N; H; W; D; C]) with (o := o)
    as (idx & Hb & Hoff); [repeat constructor; lia|done|].
  invert_box.
  match goal with
  | |- ∃ _, _ ∧ _ = Mem.offset [?n; ?h; ?w; ?d; ?c] _ =>
      exists [n; c; h; w; d]; split;
      [repeat constructor; lia
      |by rewrite nhwc5_offset, (rm_strides_head 0 N)]
  end.
Qed.

(** ** Descriptor pairs of one conversion *)

Lemma SetTensorDescriptor_NHWC_3 ty (n w c : Z) :
  SetTensorDescriptor ty NHWC [n; w; c]
  = Ok (mkDesc ty 4 [n; c; 1; w] [1 *i w *i c; 1; w *i c; c]).
Proof. done. Qed.

Lemma SetTensorDescriptor_NCHW_3 ty (n c w : Z) :
  SetTensorDescriptor ty NCHW [n; c; w]
  = Ok (mkDesc ty 4 [n; c; 1; w] [c *i 1 *i w; 1 *i w; w; 1]).
Proof. done. Qed.

Lemma SetTensorDescriptor_NHWC_4 ty (n h w c : Z) :
  SetTensorDescriptor ty NHWC [n; h; w; c]
  = Ok (mkDesc ty 4 [n; c; h; w] [h *i w *i c; 1; w *i c; c]).
Proof. done. Qed.

Lemma SetTensorDescriptor_NCHW_4 ty (n c h w : Z) :
  SetTensorDescriptor ty NCHW [n; c; h; w]
  = Ok (mkDesc ty 4 [n; c; h; w] [c *i h *i w; h *i w; w; 1]).
Proof. done. Qed.

Lemma descriptor_pair ty (n c : Z) (mid : list Z) :
  mid ≠ [] →
  Forall (λ d, 0 < d) (n :: mid ++ [c]) →
  numel (mid ++ [c]) <= Int32.int_max →
  ∃ nb E sN sC,
    SetTensorDescriptor ty NHWC (n :: mid ++ [c]) = Ok (mkDesc ty nb E sN)
    ∧ SetTensorDescriptor ty NCHW (n :: c :: mid) = Ok (mkDesc ty nb E sC)
    ∧ injective_on E sC ∧ injective_on E sN
    ∧ covers E sN (numel (n :: mid ++ [c])).
Proof.
  intros Hmid Hpos Hle.
  apply Forall_cons_1 in Hpos as [Hn Hpos].
  destruct mid as [|a [|b [|x rest]]]; [done| | |].
  - (* rank 3 *)
    apply Forall_cons_1 in Hpos as [Ha Hpos].
    apply Forall_cons_1 in Hpos as [Hc _].
    assert (Hac : a * c <= Int32.int_max).
    { revert Hle. unfold numel. simpl. lia. }
    pose proof (le_mul_pos_l c a). pose proof (le_mul_pos_l a c).
    exists 4, [n; c; 1; a], [1 * a * c; 1; a * c; c],
           [c * 1 * a; 1 * a; a; 1].
    split; [|split; [|split; [|split]]].
    + change (n :: [a] ++ [c]) with [n; a; c].
      rewrite SetTensorDescriptor_NHWC_3.
      rewrite (mul_exact 1 a), (mul_exact (1 * a) c), (mul_exact a c)
        by lia. done.
    + rewrite SetTensorDescriptor_NCHW_3.
      rewrite (mul_exact c 1), (mul_exact (c * 1) a), (mul_exact 1 a)
        by lia. done.
    + apply nchw4_injective.
    + apply nhwc4_injective.
    + replace (numel (n :: [a] ++ [c])) with (numel [n; 1; a; c])
        by (unfold numel; simpl; lia).
      apply nhwc4_covers; lia.
  - (* rank 4 *)
    apply Forall_cons_1 in Hpos as [Ha Hpos].
    apply Forall_cons_1 in Hpos as [Hb Hpos].
    apply Forall_cons_1 in Hpos as [Hc _].
    assert (Habc : a * (b * c) <= Int32.int_max).
    { revert Hle. unfold numel. simpl. lia. }
    pose proof (le_mul_pos_l a (b * c)).
    pose proof (le_mul_pos_l c (a * b)).
    pose proof (le_mul_pos_l b (c * a)).
    exists 4, [n; c; a; b], [a * b * c; 1; b * c; c],
           [c * a * b; a * b; b; 1].
    split; [|split; [|split; [|split]]].
    + change (n :: [a; b] ++ [c]) with [n; a; b; c].
      rewrite SetTensorDescriptor_NHWC_4.
      rewrite (mul_exact a b), (mul_exact (a * b) c), (mul_exact b c)
        by lia. done.
    + rewrite SetTensorDescriptor_NCHW_4.
      rewrite (mul_exact c a), (mul_exact (c * a) b), (mul_exact a b)
        by lia. done.
    + apply nchw4_injective.
    + apply nhwc4_injective.
    + replace (numel (n :: [a; b] ++ [c])) with (numel [n; a; b; c])
        by (unfold numel; simpl; lia).
      apply nhwc4_covers; lia.
  - (* rank 5 and above *)
    assert (Hpos' := Hpos).
    apply Forall_cons_1 in Hpos' as [Ha Hpos'].
    apply Forall_cons_1 in Hpos' as [Hb Hpos'].
    change (Forall (λ d, 0 < d) ((x :: rest) ++ [c])) in Hpos'.
    apply Forall_app in Hpos' as [Hsp Hc].
    apply Forall_cons_1 in Hc as [Hc _].
    pose proof (numel_pos _ Hsp) as HD.
    exists 5, [n; c; a; b; numel (x :: rest)].
    eexists. eexists.
    split; [|split; [|split; [|split]]].
    + apply (SetTensorDescriptor_NHWC_5 ty n a b x c rest Hpos Hle).
    + apply (SetTensorDescriptor_NCHW_5 ty n c a b x rest).
      * do 3 (constructor; [done|]). done.
      * revert Hle.
        change (a :: b :: x :: rest ++ [c])
          with ([a; b] ++ (x :: rest) ++ [c]).
        change (c :: a :: b :: x :: rest)
          with ([c; a; b] ++ (x :: rest)).
        rewrite !numel_app, numel_singleton.
        unfold numel at 1 3. simpl. lia.
    + apply nchw5_injective.
    + apply nhwc5_injective.
    + replace (numel (n :: (a :: b :: x :: rest) ++ [c]))
        with (numel [n; a; b; numel (x :: rest); c]).
      { apply nhwc5_covers; lia. }
      change (n :: (a :: b :: x :: rest) ++ [c])
        with ([n; a; b] ++ (x :: rest) ++ [c]).
      rewrite !numel_app, numel_singleton.
      unfold numel at 1 3. simpl. lia.
Qed.

Lemma cache_coherent_fresh d T (sizes : list Z) :
  sizes ≠ [] → cache_coherent d T sizes CuDNNOrderSwithOpBase.
Proof. intros Hne Hhit. by destruct sizes. Qed.

Section RoundTrip.
Context {elem : Type}.
Implicit Types (X : Tensor elem) (w : World elem).

Lemma RunOnDevice_Make d T X w :
  meta X = TypeMeta_Make T → RunOnDevice d X w = DoRunWithType d T X w.
Proof. unfold RunOnDevice. intros ->. by destruct T. Qed.

(** A run whose descriptors agree on their extents, on a miss or on a
    coherent hit. *)
Lemma DoRunWithType_run d T X w (Y_dims : list Z) xd yd :
  computeOutputShape d (sizes X) = Ok Y_dims →
  SetTensorDescriptor (cudnnTypeWrapper_type T) (source_order d)
    (Vec.narrow (sizes X))
  = Ok xd →
  SetTensorDescriptor (cudnnTypeWrapper_type T) (dest_order d) Y_dims
  = Ok yd →
  nbDims xd = nbDims yd → dimA xd = dimA yd →
  cache_coherent d T (sizes X) (self w) →
  DoRunWithType d T X w
  = (mkWorld (mkOpState xd yd (Vec.narrow (sizes X)))
       (mkTensor Y_dims (TypeMeta_Make T)
          (Mem.relayout (dimA xd) (strideA xd) (strideA yd)
             (data X) (data (output w)))),
     Ok true).
Proof.
  intros HY Hxd Hyd Hnb Hdim Hcoh.
  unfold DoRunWithType, mbind, mret, Op_bind, Op_ret, lift, Resize,
    get_cached_X_dims, set_cached_X_dims, set_X_desc, set_Y_desc,
    TransformTensor, cudnnTransformTensor.
  rewrite HY. simpl.
  destruct (decide (cached_X_dims_ (self w) ≠ Vec.narrow (sizes X)))
    as [Hne|Heq]; simpl.
  - rewrite Hxd. simpl. rewrite Hyd. simpl.
    by rewrite decide_True.
  - apply dec_stable in Heq.
    destruct (Hcoh Heq) as (Y_dims' & HY' & Hxd' & Hyd').
    rewrite HY in HY'. injection HY' as <-.
    rewrite Hxd in Hxd'. injection Hxd' as Hxd'.
    rewrite Hyd in Hyd'. injection Hyd' as Hyd'.
    rewrite <- Hxd', <- Hyd'. rewrite decide_True by done.
    destruct (self w) as [xd0 yd0 cached0]. simpl in *. by subst.
Qed.

(** The same for an input whose extents fit an [int]: the cached list
    is the list of sizes itself. *)
Lemma DoRunWithType_run_fit d T X w (Y_dims : list Z) xd yd :
  Forall Int32.in_range (sizes X) →
  computeOutputShape d (sizes X) = Ok Y_dims →
  SetTensorDescriptor (cudnnTypeWrapper_type T) (source_order d) (sizes X)
  = Ok xd →
  SetTensorDescriptor (cudnnTypeWrapper_type T) (dest_order d) Y_dims
  = Ok yd →
  nbDims xd = nbDims yd → dimA xd = dimA yd →
  cache_coherent d T (sizes X) (self w) →
  DoRunWithType d T X w
  = (mkWorld (mkOpState xd yd (sizes X))
       (mkTensor Y_dims (TypeMeta_Make T)
          (Mem.relayout (dimA xd) (strideA xd) (strideA yd)
             (data X) (data (output w)))),
     Ok true).
Proof.
  intros Hfit HY Hxd Hyd Hnb Hdim Hcoh.
  rewrite <- (narrow_in_range (sizes X) Hfit) in Hxd.
  rewrite (DoRunWithType_run d T X w Y_dims xd yd); try done.
  by rewrite (narrow_in_range (sizes X) Hfit).
Qed.

(** C5, as amended: on a fresh instance the rank-5 channel-second input
    [(2, 4, 3, 5, 2)] converts to the output shape [(2, 3, 5, 2, 4)];
    both descriptors have the five extents N = 2, C = 4, H = 3, W = 5,
    D = 2, so the synthetic axis D holds the single remaining spatial
    extent D3 and nothing is collapsed at rank 5. *)
Theorem C5_rank5_example T (x : Z → elem) (Y0 : Tensor elem) :
  let X := mkTensor [2; 4; 3; 5; 2] (TypeMeta_Make T) x in
  let r := RunOnDevice NCHW2NHWC X (mkWorld CuDNNOrderSwithOpBase Y0) in
  r.2 = Ok true
  ∧ sizes (output r.1) = [2; 3; 5; 2; 4]
  ∧ X_desc_ (self r.1)
    = mkDesc (cudnnTypeWrapper_type T) 5 [2; 4; 3; 5; 2] [120; 30; 10; 2; 1]
  ∧ Y_desc_ (self r.1)
    = mkDesc (cudnnTypeWrapper_type T) 5 [2; 4; 3; 5; 2] [120; 1; 40; 8; 4].
Proof.
  intros X r. unfold r.
  rewrite (RunOnDevice_Make _ T) by done.
  rewrite (DoRunWithType_run NCHW2NHWC T X _ [2; 3; 5; 2; 4]
             (mkDesc (cudnnTypeWrapper_type T) 5 [2; 4; 3; 5; 2]
                [120; 30; 10; 2; 1])
             (mkDesc (cudnnTypeWrapper_type T) 5 [2; 4; 3; 5; 2]
                [120; 1; 40; 8; 4])); done.
Qed.

(** C8, as amended: for an input of rank at least 3 with a supported
    element type, positive extents that each fit a 32-bit [int] and a
    per-sample element count that fits a 32-bit [int], run on instances
    whose caches are coherent (a fresh instance is), converting
    channel-last to channel-second and the result back reproduces the
    shape, the element type and, offset by offset, every element of the
    input. *)
Theorem C8_round_trip T X w1 w2 :
  (3 <= length (sizes X))%nat →
  Forall (λ d, 0 < d <= Int32.int_max) (sizes X) →
  numel (drop 1 (sizes X)) <= Int32.int_max →
  meta X = TypeMeta_Make T →
  cache_coherent NHWC2NCHW T (sizes X) (self w1) →
  let r1 := RunOnDevice NHWC2NCHW X w1 in
  cache_coherent NCHW2NHWC T (sizes (output r1.1)) (self w2) →
  let r2 := RunOnDevice NCHW2NHWC (output r1.1) w2 in
  r1.2 = Ok true ∧ r2.2 = Ok true
  ∧ sizes (output r2.1) = sizes X
  ∧ meta (output r2.1) = meta X
  ∧ ∀ o, 0 <= o < numel (sizes X) → data (output r2.1) o = data X o.
Proof.
  intros Hrank Hbnd Hle Hmeta Hcoh1.
  pose proof (bounded_pos _ Hbnd) as Hpos.
  pose proof (bounded_in_range _ Hbnd) as Hfit.
  destruct (rank2_split (sizes X)) as (n & mid & c & Hsz); [lia|].
  assert (Hmid : mid ≠ []).
  { intros ->. rewrite Hsz in Hrank. simpl in Hrank. lia. }
  rewrite Hsz in Hpos, Hle.
  change (drop 1 (n :: mid ++ [c])) with (mid ++ [c]) in Hle.
  destruct (descriptor_pair (cudnnTypeWrapper_type T) n c mid Hmid Hpos Hle)
    as (nb & E & sN & sC & HdN & HdC & HinjC & HinjN & Hcov).
  assert (Hrun1 : RunOnDevice NHWC2NCHW X w1
                  = (mkWorld
                       (mkOpState (mkDesc (cudnnTypeWrapper_type T) nb E sN)
                          (mkDesc (cudnnTypeWrapper_type T) nb E sC)
                          (sizes X))
                       (mkTensor (n :: c :: mid) (TypeMeta_Make T)
                          (Mem.relayout E sN sC (data X)
                             (data (output w1)))),
                     Ok true)).
  { rewrite (RunOnDevice_Make _ T) by done.
    apply (DoRunWithType_run_fit NHWC2NCHW T X w1 (n :: c :: mid));
      try done.
    - rewrite Hsz. apply NHWC2NCHW_Y_dims_fit. by rewrite <- Hsz.
    - by rewrite Hsz. }
  intros r1. unfold r1. rewrite Hrun1. simpl.
  intros Hcoh2.
  set (Y1 := mkTensor (n :: c :: mid) (TypeMeta_Make T)
               (Mem.relayout E sN sC (data X) (data (output w1)))).
  assert (Hfit1 : Forall Int32.in_range (sizes Y1)).
  { apply Forall_unrotate. by rewrite <- Hsz. }
  assert (Hrun2 : RunOnDevice NCHW2NHWC Y1 w2
                  = (mkWorld
                       (mkOpState (mkDesc (cudnnTypeWrapper_type T) nb E sC)
                          (mkDesc (cudnnTypeWrapper_type T) nb E sN)
                          (sizes Y1))
                       (mkTensor (n :: mid ++ [c]) (TypeMeta_Make T)
                          (Mem.relayout E sC sN (data Y1)
                             (data (output w2)))),
                     Ok true)).
  { rewrite (RunOnDevice_Make _ T) by done.
    apply (DoRunWithType_run_fit NCHW2NHWC T Y1 w2 (n :: mid ++ [c]));
      try done.
    by apply NCHW2NHWC_Y_dims_fit. }
  rewrite Hrun2. simpl.
  split; [done|]. split; [done|]. split; [done|]. split; [done|].
  intros o Ho. rewrite Hsz in Ho.
  by apply (relayout_round_trip E sN sC _ _ _ (numel (n :: mid ++ [c]))).
Qed.

End RoundTrip.

Lemma C8_round_trip_witness :
  let X := mkTensor [2; 2; 3] Meta_float (λ o : Z, o + 100) in
  let w := mkWorld CuDNNOrderSwithOpBase (mkTensor [] Meta_float (λ _, 0)) in
  let r1 := RunOnDevice NHWC2NCHW X w in
  let r2 := RunOnDevice NCHW2NHWC (output r1.1) w in
  ((3 <= length (sizes X))%nat
   ∧ Forall (λ d, 0 < d <= Int32.int_max) (sizes X)
   ∧ numel (drop 1 (sizes X)) <= Int32.int_max
   ∧ meta X = TypeMeta_Make T_float
   ∧ cache_coherent NHWC2NCHW T_float (sizes X) (self w)
   ∧ cache_coherent NCHW2NHWC T_float (sizes (output r1.1)) (self w))
  ∧ r1.2 = Ok true ∧ r2.2 = Ok true
  ∧ sizes (output r2.1) = sizes X
  ∧ meta (output r2.1) = meta X
  ∧ ∀ o, 0 <= o < numel (sizes X) → data (output r2.1) o = data X o.
Proof.
  intros X w r1 r2.
  assert (Hrank : (3 <= length (sizes X))%nat) by (simpl; lia).
  assert (Hbnd : Forall (λ d, 0 < d <= Int32.int_max) (sizes X))
    by (repeat constructor; unfold Int32.int_max; lia).
  assert (Hle : numel (drop 1 (sizes X)) <= Int32.int_max)
    by (vm_compute; discriminate).
  assert (Hmeta : meta X = TypeMeta_Make T_float) by reflexivity.
  assert (Hcoh1 : cache_coherent NHWC2NCHW T_float (sizes X) (self w))
    by (intros Hhit; discriminate Hhit).
  assert (Hcoh2 : cache_coherent NCHW2NHWC T_float
                    (sizes (output r1.1)) (self w))
    by (intros Hhit; discriminate Hhit).
  split; [done|].
  exact (C8_round_trip T_float X w w Hrank Hbnd Hle Hmeta Hcoh1 Hcoh2).
Defined.

(** C8 as stated fails where the extents overflow [int].  The
    channel-last input [(1, 1, 1, 641, 6700417, 1)] has [2^32 + 1]
    elements; the synthetic extent D wraps to 1, both descriptors describe
    a single element, and each transform copies one element only: after
    the round trip on fresh instances the element at offset 1 is still
    what the destination held before. *)
Lemma C8_overflow_counterexample :
  let X := mkTensor [1; 1; 1; 641; 6700417; 1] Meta_Half (λ _ : Z, 1) in
  let w := mkWorld CuDNNOrderSwithOpBase (mkTensor [] Meta_Half (λ _, 0)) in
  let r1 := RunOnDevice NHWC2NCHW X w in
  let r2 := RunOnDevice NCHW2NHWC (output r1.1) w in
  ¬ (sizes (output r2.1) = sizes X
     ∧ ∀ o, 0 <= o < numel (sizes X) → data (output r2.1) o = data X o).
Proof.
  intros X w r1 r2 [_ Hdata].
  assert (Ho : 0 <= 1 < numel (sizes X)) by (vm_compute; done).
  specialize (Hdata 1 Ho). vm_compute in Hdata. discriminate Hdata.
Qed.

Example C8_overflow_descriptors :
  SetTensorDescriptor CUDNN_DATA_HALF NHWC [1; 1; 1; 641; 6700417; 1]
  = Ok (mkDesc CUDNN_DATA_HALF 5 [1; 1; 1; 1; 1] [1; 1; 1; 1; 1])
  ∧ SetTensorDescriptor CUDNN_DATA_HALF NCHW [1; 1; 1; 1; 641; 6700417]
    = Ok (mkDesc CUDNN_DATA_HALF 5 [1; 1; 1; 1; 1] [1; 1; 1; 1; 1]).
Proof. done. Qed.

(** ** Descriptors at every rank, without a bound on the extents *)

Lemma SetTensorDescriptor_NCHW_ge5 ty (n c h w x : Z) (rest : list Z) :
  SetTensorDescriptor ty NCHW (n :: c :: h :: w :: x :: rest)
  = Ok (mkDesc ty 5 (nd_extents n c h w (x :: rest))
          (nd_strides NCHW c h w (x :: rest))).
Proof.
  unfold SetTensorDescriptor.
  rewrite !Vec_size_cons. pose proof (Vec_size_nonneg rest) as Hsz.
  simpl. rewrite !decide_False by lia.
  rewrite Vec_range_Ok; [|lia|rewrite !Vec_size_cons; lia].
  simpl mbind.
  replace (take _ _) with (x :: rest); [done|].
  change (drop (Z.to_nat 4) (n :: c :: h :: w :: x :: rest))
    with (x :: rest).
  rewrite take_ge; [done|]. unfold Vec.size. simpl. lia.
Qed.

Lemma SetTensorDescriptor_NHWC_ge5 ty (n h w x c : Z) (mid : list Z) :
  SetTensorDescriptor ty NHWC (n :: h :: w :: (x :: mid) ++ [c])
  = Ok (mkDesc ty 5 (nd_extents n c h w (x :: mid))
          (nd_strides NHWC c h w (x :: mid))).
Proof.
  set (X := n :: h :: w :: (x :: mid) ++ [c]).
  assert (Hback : Vec.back X = Ok c)
    by apply (Vec_back_snoc (n :: h :: w :: x :: mid)).
  assert (Hsz : Vec.size X = Vec.size mid + 5).
  { unfold X. change (n :: h :: w :: (x :: mid) ++ [c])
      with (n :: h :: w :: x :: (mid ++ [c])).
    rewrite !Vec_size_cons, Vec_size_snoc. lia. }
  pose proof (Vec_size_nonneg mid) as Hmid.
  assert (Hrng : Vec.range X 3 (Vec.size mid + 5 - 1) = Ok (x :: mid)).
  { rewrite Vec_range_Ok by lia. f_equal.
    change (drop (Z.to_nat 3) X) with ((x :: mid) ++ [c]).
    replace (Z.to_nat (Vec.size mid + 5 - 1 - 3)) with (length (x :: mid))
      by (unfold Vec.size; simpl; lia).
    by rewrite take_app_length. }
  unfold SetTensorDescriptor. cbv zeta.
  rewrite !(decide_False (P := NHWC = NCHW)) by done.
  rewrite Hback, Hsz, Hrng.
  unfold X. simpl. rewrite !decide_False by lia. done.
Qed.

(** A list of rank at least 3, read channel-last, and its channel-second
    rearrangement get descriptors with the same extents. *)
Lemma descriptor_pair_total ty (n c : Z) (mid : list Z) :
  mid ≠ [] →
  ∃ nb E sN sC,
    SetTensorDescriptor ty NHWC (n :: mid ++ [c]) = Ok (mkDesc ty nb E sN)
    ∧ SetTensorDescriptor ty NCHW (n :: c :: mid) = Ok (mkDesc ty nb E sC)
    ∧ (nb = 4 ∨ nb = 5)
    ∧ Vec.size E = nb ∧ Vec.size sN = nb ∧ Vec.size sC = nb
    ∧ (nb = 5 ↔ (5 <= length (n :: mid ++ [c]))%nat).
Proof.
  intros Hmid. destruct mid as [|a [|b [|x rest]]]; [done| | |].
  - eexists 4, _, _, _. split; [apply SetTensorDescriptor_NHWC_3|].
    split; [apply SetTensorDescriptor_NCHW_3|].
    repeat split; auto; simpl; lia.
  - eexists 4, _, _, _. split; [apply SetTensorDescriptor_NHWC_4|].
    split; [apply SetTensorDescriptor_NCHW_4|].
    repeat split; auto; simpl; lia.
  - eexists 5, _, _, _.
    split; [apply (SetTensorDescriptor_NHWC_ge5 ty n a b x c rest)|].
    split; [apply SetTensorDescriptor_NCHW_ge5|].
    repeat split; auto; simpl; try lia.
    rewrite length_app. simpl. lia.
Qed.

(** ** Offsets of the two storage orders *)

Lemma nchw4_within (N C H W : Z) :
  within [N; C; H; W] [C * H * W; H * W; W; 1] (numel [N; C; H; W]).
Proof.
  intros idx Hb. rewrite nchw4_strides, (rm_strides_head 0 N).
  by apply rm_offset_range.
Qed.

Lemma nchw5_within (N C H W D : Z) :
  within [N; C; H; W; D] [C * H * W * D; H * W * D; W * D; D; 1]
         (numel [N; C; H; W; D]).
Proof.
  intros idx Hb. rewrite nchw5_strides, (rm_strides_head 0 N).
  by apply rm_offset_range.
Qed.

Lemma nhwc4_within (N C H W : Z) :
  within [N; C; H; W] [H * W * C; 1; W * C; C] (numel [N; H; W; C]).
Proof.
  intros idx Hb. invert_box.
  rewrite nhwc4_offset, (rm_strides_head 0 N).
  apply rm_offset_range. repeat constructor; lia.
Qed.

Lemma nhwc5_within (N C H W D : Z) :
  within [N; C; H; W; D] [C * H * W * D; 1; W * D * C; D * C; C]
         (numel [N; H; W; D; C]).
Proof.
  intros idx Hb. invert_box.
  rewrite nhwc5_offset, (rm_strides_head 0 N).
  apply rm_offset_range. repeat constructor; lia.
Qed.

Lemma nchw4_covers (N C H W : Z) :
  0 < N → 0 < C → 0 < H → 0 < W →
  covers [N; C; H; W] [C * H * W; H * W; W; 1] (numel [N; C; H; W]).
Proof.
  intros. rewrite nchw4_strides, (rm_strides_head 0 N).
  apply rm_covers. by repeat constructor.
Qed.

Lemma nchw5_covers (N C H W D : Z) :
  0 < N → 0 < C → 0 < H → 0 < W → 0 < D →
  covers [N; C; H; W; D] [C * H * W * D; H * W * D; W * D; D; 1]
         (numel [N; C; H; W; D]).
Proof.
  intros. rewrite nchw5_strides, (rm_strides_head 0 N).
  apply rm_covers. by repeat constructor.
Qed.

Lemma transposes4 (N C H W : Z) :
  0 < H → 0 < W →
  transposes [N; C; H; W] [C * H * W; H * W; W; 1] [H * W * C; 1; W * C; C]
             N C (H * W).
Proof.
  intros HH HW i j s Hi Hj Hs.
  destruct (rm_covers [H; W]) with (o := s) as (idx & Hb & Hoff).
  { by repeat constructor. }
  { unfold numel. simpl. lia. }
  invert_box.
  match goal with
  | H1 : 0 <= ?h < H, H2 : 0 <= ?w < W |- _ =>
      exists [i; j; h; w]; split; [repeat constructor; lia|]
  end.
  unfold rm_strides, numel. simpl. lia.
Qed.

Lemma transposes5 (N C H W D : Z) :
  0 < H → 0 < W → 0 < D →
  transposes [N; C; H; W; D]
             [C * H * W * D; H * W * D; W * D; D; 1]
             [C * H * W * D; 1; W * D * C; D * C; C]
             N C (H * W * D).
Proof.
  intros HH HW HD i j s Hi Hj Hs.
  destruct (rm_covers [H; W; D]) with (o := s) as (idx & Hb & Hoff).
  { by repeat constructor. }
  { unfold numel. simpl. lia. }
  invert_box.
  match goal with
  | H1 : 0 <= ?h < H, H2 : 0 <= ?w < W, H3 : 0 <= ?d < D |- _ =>
      exists [i; j; h; w; d]; split; [repeat constructor; lia|]
  end.
  unfold rm_strides, numel. simpl. lia.
Qed.

(** The two descriptors of a conversion, for positive extents whose
    per-sample count fits an [int]: both stride vectors are bijections
    between the index box and the offsets below the element count, and
    they differ by the transposition of channel and spatial position. *)
Lemma descriptor_pair_layout ty (n c : Z) (mid : list Z) :
  mid ≠ [] →
  Forall (λ d, 0 < d) (n :: mid ++ [c]) →
  numel (mid ++ [c]) <= Int32.int_max →
  ∃ nb E sN sC,
    SetTensorDescriptor ty NHWC (n :: mid ++ [c]) = Ok (mkDesc ty nb E sN)
    ∧ SetTensorDescriptor ty NCHW (n :: c :: mid) = Ok (mkDesc ty nb E sC)
    ∧ layout_pair E sN sC n c mid.
Proof.
  unfold layout_pair. intros Hmid Hpos Hle.
  apply Forall_cons_1 in Hpos as [Hn Hpos].
  destruct mid as [|a [|b [|x rest]]]; [done| | |].
  - (* rank 3 *)
    apply Forall_cons_1 in Hpos as [Ha Hpos].
    apply Forall_cons_1 in Hpos as [Hc _].
    assert (Hac : a * c <= Int32.int_max).
    { revert Hle. unfold numel. simpl. lia. }
    pose proof (le_mul_pos_l c a). pose proof (le_mul_pos_l a c).
    assert (HM : numel (n :: [a] ++ [c]) = numel [n; c; 1; a])
      by (unfold numel; simpl; lia).
    assert (HM' : numel (n :: [a] ++ [c]) = numel [n; 1; a; c])
      by (unfold numel; simpl; lia).
    assert (HS : numel [a] = 1 * a) by (unfold numel; simpl; lia).
    exists 4, [n; c; 1; a], [1 * a * c; 1; a * c; c],
           [c * 1 * a; 1 * a; a; 1].
    split.
    { change (n :: [a] ++ [c]) with [n; a; c].
      rewrite SetTensorDescriptor_NHWC_3.
      rewrite (mul_exact 1 a), (mul_exact (1 * a) c), (mul_exact a c)
        by lia. done. }
    split.
    { rewrite SetTensorDescriptor_NCHW_3.
      rewrite (mul_exact c 1), (mul_exact (c * 1) a), (mul_exact 1 a)
        by lia. done. }
    split; [apply nchw4_injective|]. split; [apply nhwc4_injective|].
    split; [rewrite HM; apply nchw4_within|].
    split; [rewrite HM'; apply nhwc4_within|].
    split; [rewrite HM; apply nchw4_covers; lia|].
    split; [rewrite HM'; apply nhwc4_covers; lia|].
    rewrite HS. apply transposes4; lia.
  - (* rank 4 *)
    apply Forall_cons_1 in Hpos as [Ha Hpos].
    apply Forall_cons_1 in Hpos as [Hb Hpos].
    apply Forall_cons_1 in Hpos as [Hc _].
    assert (Habc : a * (b * c) <= Int32.int_max).
    { revert Hle. unfold numel. simpl. lia. }
    pose proof (le_mul_pos_l a (b * c)).
    pose proof (le_mul_pos_l c (a * b)).
    pose proof (le_mul_pos_l b (c * a)).
    assert (HM : numel (n :: [a; b] ++ [c]) = numel [n; c; a; b])
      by (unfold numel; simpl; lia).
    assert (HM' : numel (n :: [a; b] ++ [c]) = numel [n; a; b; c])
      by (unfold numel; simpl; lia).
    assert (HS : numel [a; b] = a * b) by (unfold numel; simpl; lia).
    exists 4, [n; c; a; b], [a * b * c; 1; b * c; c],
           [c * a * b; a * b; b; 1].
    split.
    { change (n :: [a; b] ++ [c]) with [n; a; b; c].
      rewrite SetTensorDescriptor_NHWC_4.
      rewrite (mul_exact a b), (mul_exact (a * b) c), (mul_exact b c)
        by lia. done. }
    split.
    { rewrite SetTensorDescriptor_NCHW_4.
      rewrite (mul_exact c a), (mul_exact (c * a) b), (mul_exact a b)
        by lia. done. }
    split; [apply nchw4_injective|]. split; [apply nhwc4_injective|].
    split; [rewrite HM; apply nchw4_within|].
    split; [rewrite HM'; apply nhwc4_within|].
    split; [rewrite HM; apply nchw4_covers; lia|].
    split; [rewrite HM'; apply nhwc4_covers; lia|].
    rewrite HS. apply transposes4; lia.
  - (* rank 5 and above *)
    assert (Hpos' := Hpos).
    apply Forall_cons_1 in Hpos' as [Ha Hpos'].
    apply Forall_cons_1 in Hpos' as [Hb Hpos'].
    change (Forall (λ d, 0 < d) ((x :: rest) ++ [c])) in Hpos'.
    apply Forall_app in Hpos' as [Hsp Hc].
    apply Forall_cons_1 in Hc as [Hc _].
    pose proof (numel_pos _ Hsp) as HD.
    set (D := numel (x :: rest)) in *.
    assert (HM : numel (n :: (a :: b :: x :: rest) ++ [c])
                 = numel [n; c; a; b; D]).
    { change (n :: (a :: b :: x :: rest) ++ [c])
        with ([n; a; b] ++ (x :: rest) ++ [c]).
      rewrite !numel_app, numel_singleton. fold D.
      unfold numel. simpl. lia. }
    assert (HM' : numel (n :: (a :: b :: x :: rest) ++ [c])
                  = numel [n; a; b; D; c]).
    { rewrite HM. unfold numel. simpl. lia. }
    assert (HS : numel (a :: b :: x :: rest) = a * b * D).
    { change (numel (a :: b :: x :: rest)) with (a * (b * D)). lia. }
    exists 5, [n; c; a; b; D].
    eexists. eexists.
    split; [apply (SetTensorDescriptor_NHWC_5 ty n a b x c rest Hpos Hle)|].
    split.
    { apply (SetTensorDescriptor_NCHW_5 ty n c a b x rest).
      - do 3 (constructor; [done|]). done.
      - revert Hle.
        change (a :: b :: x :: rest ++ [c])
          with ([a; b] ++ (x :: rest) ++ [c]).
        change (c :: a :: b :: x :: rest)
          with ([c; a; b] ++ (x :: rest)).
        rewrite !numel_app, numel_singleton.
        unfold numel at 1 3. simpl. lia. }
    fold D.
    split; [apply nchw5_injective|]. split; [apply nhwc5_injective|].
    split; [rewrite HM; apply nchw5_within|].
    split; [rewrite HM'; apply nhwc5_within|].
    split; [rewrite HM; apply nchw5_covers; lia|].
    split; [rewrite HM'; apply nhwc5_covers; lia|].
    rewrite HS. apply transposes5; lia.
Qed.

(** ** Writes of one pass *)

Section Writes.
Context {elem A : Type}.
Implicit Types (L : list A) (k : A → Z) (v : A → elem) (y : Z → elem).

(** An offset that no write targets keeps its element. *)
Lemma fold_write_frame L k v y o :
  (∀ a, a ∈ L → k a ≠ o) →
  fold_left (λ m a, Mem.upd m (k a) (v a)) L y o = y o.
Proof.
  revert y. induction L as [|a L IH]; intros y Hno; [done|].
  simpl. rewrite IH.
  - apply upd_ne. intros Heq. by apply (Hno a); [apply list_elem_of_here|].
  - intros b Hb. apply Hno. by apply list_elem_of_further.
Qed.

(** What the destination held at a written offset does not matter. *)
Lemma fold_write_ext L k v y y' o :
  y o = y' o ∨ (∃ a, a ∈ L ∧ k a = o) →
  fold_left (λ m a, Mem.upd m (k a) (v a)) L y o
  = fold_left (λ m a, Mem.upd m (k a) (v a)) L y' o.
Proof.
  revert y y'. induction L as [|a L IH]; intros y y' Hor.
  - destruct Hor as [Heq|(a & Ha & _)]; [done|]. by apply elem_of_nil in Ha.
  - simpl. apply IH.
    destruct (decide (o = k a)) as [->|Hne].
    + left. by rewrite !upd_eq.
    + destruct Hor as [Heq|(b & Hb & Hk)].
      * left. by rewrite !upd_ne.
      * apply elem_of_cons in Hb as [->|Hb]; [done|]. right. eauto.
Qed.
End Writes.

Section Relayout2.
Context {elem : Type}.
Implicit Types (x y : Z → elem) (dims idx xs ys : list Z).

(** A pass leaves alone every offset that is not the destination offset
    of an index tuple of the box. *)
Lemma relayout_frame dims xs ys x y o :
  (∀ idx, in_box idx dims → Mem.offset idx ys ≠ o) →
  Mem.relayout dims xs ys x y o = y o.
Proof.
  intros Hno. unfold Mem.relayout.
  apply (fold_write_frame (Mem.box dims) (λ idx, Mem.offset idx ys)
           (λ idx, x (Mem.offset idx xs))).
  intros idx Hidx. by apply Hno, elem_of_box.
Qed.

(** Repeating a pass on its own result changes nothing. *)
Lemma relayout_idem dims xs ys x y o :
  Mem.relayout dims xs ys x (Mem.relayout dims xs ys x y) o
  = Mem.relayout dims xs ys x y o.
Proof.
  set (y1 := Mem.relayout dims xs ys x y).
  destruct (decide (o ∈ (λ idx, Mem.offset idx ys) <$> Mem.box dims))
    as [Hin|Hout].
  - apply list_elem_of_fmap in Hin as (idx & -> & Hidx).
    unfold y1 at 2. unfold Mem.relayout.
    apply (fold_write_ext (Mem.box dims) (λ idx, Mem.offset idx ys)
             (λ idx, x (Mem.offset idx xs))).
    right. eauto.
  - apply relayout_frame. intros idx Hidx <-. apply Hout.
    apply list_elem_of_fmap. exists idx. split; [done|].
    by apply elem_of_box.
Qed.
End Relayout2.

(** ** Derivation at every rank *)

(** A list of rank at least 3, read in the source order of a direction,
    and its output shape: the rearrangement of its [int] copy. *)
Lemma direction_split d (dims : list Z) :
  (3 <= length dims)%nat →
  ∃ n c mid,
    mid ≠ []
    ∧ match d with
      | NHWC2NCHW =>
          dims = n :: mid ++ [c]
          ∧ computeOutputShape d dims = Ok (Vec.narrow (n :: c :: mid))
      | NCHW2NHWC =>
          dims = n :: c :: mid
          ∧ computeOutputShape d dims = Ok (Vec.narrow (n :: mid ++ [c]))
      end.
Proof.
  intros Hrank. destruct d.
  - destruct (rank2_split dims) as (n & mid & c & ->); [lia|].
    exists n, c, mid. split.
    + intros ->. simpl in Hrank. lia.
    + split; [done|]. apply NHWC2NCHW_Y_dims_app.
  - destruct dims as [|n [|c mid]]; simpl in Hrank; try lia.
    exists n, c, mid. split.
    + intros ->. simpl in Hrank. lia.
    + split; [done|]. apply NCHW2NHWC_Y_dims_cons.
Qed.

Lemma narrow_nonempty (l : list Z) : l ≠ [] → Vec.narrow l ≠ [].
Proof. by destruct l. Qed.

Lemma narrow_rotate (n c : Z) (mid : list Z) :
  Vec.narrow (n :: mid ++ [c])
  = Int32.wrap n :: Vec.narrow mid ++ [Int32.wrap c].
Proof. by rewrite narrow_cons, narrow_app. Qed.

(** The output shape is computed from the [int] copy of the extents:
    narrowing them beforehand changes nothing. *)
Lemma computeOutputShape_narrow d (dims : list Z) :
  (2 <= length dims)%nat →
  computeOutputShape d (Vec.narrow dims) = computeOutputShape d dims.
Proof.
  intros Hrank. destruct d; unfold computeOutputShape.
  - destruct (rank2_split dims Hrank) as (n & mid & c & ->).
    rewrite narrow_rotate, !NHWC2NCHW_Y_dims_app. f_equal.
    change (Int32.wrap n :: Int32.wrap c :: Vec.narrow mid)
      with (Vec.narrow (n :: c :: mid)).
    apply narrow_idem.
  - destruct dims as [|n [|c rest]]; simpl in Hrank; try lia.
    change (Vec.narrow (n :: c :: rest))
      with (Int32.wrap n :: Int32.wrap c :: Vec.narrow rest).
    rewrite !NCHW2NHWC_Y_dims_cons. f_equal.
    rewrite <- narrow_rotate. apply narrow_idem.
Qed.

(** X1: for every dimension list of rank at least 3 and either storage
    order, descriptor derivation succeeds, also where products overflow
    [int]; the descriptor carries the requested element type, has 4 axes
    at rank 3 and 4 and 5 axes from rank 5 on, and holds one extent and
    one stride per axis. *)
Theorem SetTensorDescriptor_well_formed ty order (dims : list Z) :
  (3 <= length dims)%nat →
  ∃ desc,
    SetTensorDescriptor ty order dims = Ok desc
    ∧ dataType desc = ty
    ∧ nbDims desc = (if decide (length dims <= 4)%nat then 4 else 5)
    ∧ Vec.size (dimA desc) = nbDims desc
    ∧ Vec.size (strideA desc) = nbDims desc.
Proof.
  intros Hrank.
  destruct order.
  - destruct (direction_split NHWC2NCHW dims Hrank)
      as (n & c & mid & Hmid & -> & _).
    destruct (descriptor_pair_total ty n c mid Hmid)
      as (nb & E & sN & sC & HN & _ & Hnb & HE & HsN & _ & H5).
    exists (mkDesc ty nb E sN). simpl in *. repeat split; try done.
    case_decide; destruct Hnb; lia.
  - destruct (direction_split NCHW2NHWC dims Hrank)
      as (n & c & mid & Hmid & -> & _).
    destruct (descriptor_pair_total ty n c mid Hmid)
      as (nb & E & sN & sC & _ & HC & Hnb & HE & _ & HsC & H5).
    exists (mkDesc ty nb E sC). simpl in *. repeat split; try done.
    rewrite length_app in H5. simpl in H5.
    case_decide; destruct Hnb; lia.
Qed.

(** X2: descriptor derivation has no guard for ranks below 3: for every
    such list and either storage order it reads an element past the end
    of the list. *)
Theorem SetTensorDescriptor_rank_below_3 ty order (dims : list Z) :
  (length dims < 3)%nat →
  SetTensorDescriptor ty order dims = Err OutOfBounds.
Proof.
  intros Hrank.
  destruct dims as [|a [|b [|? ?]]]; [| | |simpl in Hrank; lia];
    by destruct order.
Qed.

(** X3: for every list of input sizes of rank at least 3, either
    direction and either element type, the source descriptor (derived
    from [X_dims], the [int] copy of the sizes) and the destination
    descriptor (derived from the output shape) have the same number of
    axes, the same extents and the same element type, also where products
    overflow [int]. *)
Theorem descriptors_agree d ty (dims : list Z) :
  (3 <= length dims)%nat →
  ∃ Y_dims xd yd,
    computeOutputShape d dims = Ok Y_dims
    ∧ SetTensorDescriptor ty (source_order d) (Vec.narrow dims) = Ok xd
    ∧ SetTensorDescriptor ty (dest_order d) Y_dims = Ok yd
    ∧ nbDims xd = nbDims yd
    ∧ dimA xd = dimA yd
    ∧ dataType xd = dataType yd.
Proof.
  intros Hrank.
  destruct (direction_split d dims Hrank) as (n & c & mid & Hmid & Hd).
  destruct (descriptor_pair_total ty (Int32.wrap n) (Int32.wrap c)
              (Vec.narrow mid) (narrow_nonempty mid Hmid))
    as (nb & E & sN & sC & HN & HC & _).
  destruct d; destruct Hd as [-> HY]; rewrite HY.
  - exists (Vec.narrow (n :: c :: mid)), (mkDesc ty nb E sN),
      (mkDesc ty nb E sC).
    by rewrite narrow_rotate.
  - exists (Vec.narrow (n :: mid ++ [c])), (mkDesc ty nb E sC),
      (mkDesc ty nb E sN).
    by rewrite narrow_rotate.
Qed.

(** X7: on dimension lists of rank at least 2 the two output shape
    computations undo each other up to narrowing: in both orders their
    composition returns the [int] copy of the list, which is the list
    itself when every extent fits an [int]. *)
Theorem computeOutputShape_inverse (dims : list Z) :
  (2 <= length dims)%nat →
  (computeOutputShape NHWC2NCHW dims ≫= computeOutputShape NCHW2NHWC
   = Ok (Vec.narrow dims)
   ∧ computeOutputShape NCHW2NHWC dims ≫= computeOutputShape NHWC2NCHW
     = Ok (Vec.narrow dims))
  ∧ (Forall Int32.in_range dims → Vec.narrow dims = dims).
Proof.
  intros Hrank. split; [|apply narrow_in_range]. split.
  - destruct (rank2_split dims Hrank) as (n & mid & c & ->).
    unfold computeOutputShape. rewrite NHWC2NCHW_Y_dims_app.
    cbn [mbind result_bind].
    change (Vec.narrow (n :: c :: mid))
      with (Int32.wrap n :: Int32.wrap c :: Vec.narrow mid).
    rewrite NCHW2NHWC_Y_dims_cons, <- narrow_rotate. f_equal.
    apply narrow_idem.
  - destruct dims as [|n [|c rest]]; simpl in Hrank; try lia.
    unfold computeOutputShape. rewrite NCHW2NHWC_Y_dims_cons.
    cbn [mbind result_bind].
    rewrite narrow_rotate, NHWC2NCHW_Y_dims_app. f_equal.
    change (Int32.wrap n :: Int32.wrap c :: Vec.narrow rest)
      with (Vec.narrow (n :: c :: rest)).
    apply narrow_idem.
Qed.

(** ** Runs at every rank *)

Section Runs.
Context {elem : Type}.
Implicit Types (X : Tensor elem) (w : World elem).

(** What a run on an input of rank at least 3 does, on a miss or on a
    coherent hit. *)
Lemma run_total d T X w :
  (3 <= length (sizes X))%nat →
  meta X = TypeMeta_Make T →
  cache_coherent d T (sizes X) (self w) →
  ∃ nb E sx sy Y_dims,
    computeOutputShape d (sizes X) = Ok Y_dims
    ∧ SetTensorDescriptor (cudnnTypeWrapper_type T) (source_order d)
        (Vec.narrow (sizes X))
      = Ok (mkDesc (cudnnTypeWrapper_type T) nb E sx)
    ∧ SetTensorDescriptor (cudnnTypeWrapper_type T) (dest_order d) Y_dims
      = Ok (mkDesc (cudnnTypeWrapper_type T) nb E sy)
    ∧ RunOnDevice d X w
      = (mkWorld
           (mkOpState (mkDesc (cudnnTypeWrapper_type T) nb E sx)
              (mkDesc (cudnnTypeWrapper_type T) nb E sy)
              (Vec.narrow (sizes X)))
           (mkTensor Y_dims (TypeMeta_Make T)
              (Mem.relayout E sx sy (data X) (data (output w)))),
         Ok true).
Proof.
  intros Hrank Hmeta Hcoh.
  destruct (direction_split d (sizes X) Hrank)
    as (n & c & mid & Hmid & Hd).
  destruct (descriptor_pair_total (cudnnTypeWrapper_type T)
              (Int32.wrap n) (Int32.wrap c) (Vec.narrow mid)
              (narrow_nonempty mid Hmid))
    as (nb & E & sN & sC & HN & HC & _).
  rewrite (RunOnDevice_Make _ T) by done.
  destruct d; destruct Hd as [Hsz HY].
  - exists nb, E, sN, sC, (Vec.narrow (n :: c :: mid)).
    rewrite <- narrow_rotate, <- Hsz in HN.
    split; [done|]. split; [done|]. split; [done|].
    by apply DoRunWithType_run.
  - exists nb, E, sC, sN, (Vec.narrow (n :: mid ++ [c])).
    change (Int32.wrap n :: Int32.wrap c :: Vec.narrow mid)
      with (Vec.narrow (n :: c :: mid)) in HC.
    rewrite <- Hsz in HC. rewrite <- narrow_rotate in HN.
    split; [done|]. split; [done|]. split; [done|].
    by apply DoRunWithType_run.
Qed.

(** X4: a run on an input of rank at least 3 with a supported element
    type, positive extents that each fit a 32-bit [int] and a per-sample
    element count that fits a 32-bit [int], on an instance whose cache
    is coherent for the input (a miss, or a hit that finds the
    descriptors a miss would derive), returns true.  Afterwards
    [cached_X_dims_] is [X_dims], the [int] copy of the input's sizes,
    which is the list of sizes itself; the output has the computed shape
    and the input's element type, and [X_desc_] and [Y_desc_] are the
    descriptors derived for [X_dims] and for the output shape with the
    element type of the call. *)
Theorem run_succeeds d T X w :
  (3 <= length (sizes X))%nat →
  Forall (λ d, 0 < d <= Int32.int_max) (sizes X) →
  numel (drop 1 (sizes X)) <= Int32.int_max →
  meta X = TypeMeta_Make T →
  cache_coherent d T (sizes X) (self w) →
  let r := RunOnDevice d X w in
  r.2 = Ok true
  ∧ cached_X_dims_ (self r.1) = Vec.narrow (sizes X)
  ∧ Vec.narrow (sizes X) = sizes X
  ∧ computeOutputShape d (sizes X) = Ok (sizes (output r.1))
  ∧ meta (output r.1) = meta X
  ∧ SetTensorDescriptor (cudnnTypeWrapper_type T) (source_order d)
      (Vec.narrow (sizes X)) = Ok (X_desc_ (self r.1))
  ∧ SetTensorDescriptor (cudnnTypeWrapper_type T) (dest_order d)
      (sizes (output r.1)) = Ok (Y_desc_ (self r.1)).
Proof.
  intros Hrank Hbnd Hle Hmeta Hcoh r.
  destruct (run_total d T X w Hrank Hmeta Hcoh)
    as (nb & E & sx & sy & Y_dims & HY & Hxd & Hyd & Hrun).
  unfold r. rewrite Hrun. simpl. rewrite Hmeta.
  by rewrite (narrow_bounded _ Hbnd) in *.
Qed.

(** X5: the cache does not change what a run does: on an instance with
    a coherent cache a run gives the same result, the same output tensor
    and the same instance state as on a freshly constructed instance. *)
Theorem cache_is_transparent d T X w :
  (3 <= length (sizes X))%nat →
  meta X = TypeMeta_Make T →
  cache_coherent d T (sizes X) (self w) →
  RunOnDevice d X w
  = RunOnDevice d X (mkWorld CuDNNOrderSwithOpBase (output w)).
Proof.
  intros Hrank Hmeta Hcoh.
  destruct (run_total d T X w Hrank Hmeta Hcoh)
    as (nb & E & sx & sy & Y_dims & HY & Hxd & Hyd & ->).
  destruct (run_total d T X (mkWorld CuDNNOrderSwithOpBase (output w))
              Hrank Hmeta)
    as (nb' & E' & sx' & sy' & Y_dims' & HY' & Hxd' & Hyd' & ->).
  { apply cache_coherent_fresh. intros Hnil. rewrite Hnil in Hrank.
    simpl in Hrank. lia. }
  rewrite HY in HY'. injection HY' as <-.
  rewrite Hxd in Hxd'. injection Hxd' as <- <- <-.
  rewrite Hyd in Hyd'. injection Hyd' as <-.
  done.
Qed.

Lemma cache_inv_fresh d : cache_inv d CuDNNOrderSwithOpBase.
Proof. by left. Qed.

(** X6: runs on inputs of rank at least 3 keep the invariant of the
    cache, whatever the element type of the input and whether the cache
    is hit; a freshly constructed instance has it ([cache_inv_fresh]). *)
Theorem cache_inv_preserved d X w :
  (3 <= length (sizes X))%nat →
  cache_inv d (self w) →
  cache_inv d (self (RunOnDevice d X w).1).
Proof.
  intros Hrank Hinv.
  destruct (supported (meta X)) eqn:Hsup.
  2:{ unfold RunOnDevice. by destruct (meta X). }
  assert (∃ T, meta X = TypeMeta_Make T) as [T Hmeta].
  { destruct (meta X); try done; [by exists T_float|by exists T_Half]. }
  destruct (decide (cached_X_dims_ (self w) = Vec.narrow (sizes X)))
    as [Hhit|Hmiss].
  - by rewrite RunOnDevice_hit_self.
  - destruct (run_total d T X w Hrank Hmeta)
      as (nb & E & sx & sy & Y_dims & HY & Hxd & Hyd & ->);
      [by intros ?|].
    right. exists T, Y_dims. simpl.
    rewrite computeOutputShape_narrow by lia. done.
Qed.

(** X12: on an input of rank at least 3 with a supported element type,
    positive extents that each fit a 32-bit [int] and a per-sample
    element count that fits a 32-bit [int], and an instance whose cache
    is coherent for the input, running again on the same input changes
    nothing: the second run hits the cache, returns true and leaves the
    instance state, the shape and the element type of the output and
    every element of its buffer as the first run left them. *)
Theorem rerun_is_idempotent d T X w :
  (3 <= length (sizes X))%nat →
  Forall (λ d, 0 < d <= Int32.int_max) (sizes X) →
  numel (drop 1 (sizes X)) <= Int32.int_max →
  meta X = TypeMeta_Make T →
  cache_coherent d T (sizes X) (self w) →
  let r1 := RunOnDevice d X w in
  let r2 := RunOnDevice d X r1.1 in
  cached_X_dims_ (self r1.1) = Vec.narrow (sizes X)
  ∧ r2.2 = Ok true
  ∧ self r2.1 = self r1.1
  ∧ sizes (output r2.1) = sizes (output r1.1)
  ∧ meta (output r2.1) = meta (output r1.1)
  ∧ ∀ o, data (output r2.1) o = data (output r1.1) o.
Proof.
  intros Hrank Hbnd Hle Hmeta Hcoh r1 r2.
  destruct (run_total d T X w Hrank Hmeta Hcoh)
    as (nb & E & sx & sy & Y_dims & HY & Hxd & Hyd & Hrun1).
  unfold r2, r1. rewrite Hrun1. simpl.
  destruct (run_total d T X
              (mkWorld
                 (mkOpState (mkDesc (cudnnTypeWrapper_type T) nb E sx)
                    (mkDesc (cudnnTypeWrapper_type T) nb E sy)
                    (Vec.narrow (sizes X)))
                 (mkTensor Y_dims (TypeMeta_Make T)
                    (Mem.relayout E sx sy (data X) (data (output w)))))
              Hrank Hmeta)
    as (nb' & E' & sx' & sy' & Y_dims' & HY' & Hxd' & Hyd' & ->).
  { intros _. by exists Y_dims. }
  rewrite HY in HY'. injection HY' as <-.
  rewrite Hxd in Hxd'. injection Hxd' as <- <- <-.
  rewrite Hyd in Hyd'. injection Hyd' as <-.
  simpl. repeat split; try done.
  intros o. apply relayout_idem.
Qed.

(** The runs of a channel-last input, with their descriptors laid
    bare. *)
Lemma run_layout_NHWC2NCHW T X (n c : Z) (mid : list Z) :
  sizes X = n :: mid ++ [c] → mid ≠ [] →
  Forall (λ d, 0 < d <= Int32.int_max) (sizes X) →
  numel (drop 1 (sizes X)) <= Int32.int_max →
  meta X = TypeMeta_Make T →
  ∃ nb E sN sC,
    layout_pair E sN sC n c mid
    ∧ ∀ w, cache_coherent NHWC2NCHW T (sizes X) (self w) →
        RunOnDevice NHWC2NCHW X w
        = (mkWorld
             (mkOpState (mkDesc (cudnnTypeWrapper_type T) nb E sN)
                (mkDesc (cudnnTypeWrapper_type T) nb E sC) (sizes X))
             (mkTensor (n :: c :: mid) (TypeMeta_Make T)
                (Mem.relayout E sN sC (data X) (data (output w)))),
           Ok true).
Proof.
  intros Hsz Hmid Hbnd Hle Hmeta.
  pose proof (bounded_pos _ Hbnd) as Hpos.
  pose proof (bounded_in_range _ Hbnd) as Hfit.
  rewrite Hsz in Hpos, Hle.
  change (drop 1 (n :: mid ++ [c])) with (mid ++ [c]) in Hle.
  destruct (descriptor_pair_layout (cudnnTypeWrapper_type T) n c mid
              Hmid Hpos Hle)
    as (nb & E & sN & sC & HN & HC & Hlay).
  exists nb, E, sN, sC. split; [done|]. intros w Hcoh.
  rewrite (RunOnDevice_Make _ T) by done.
  rewrite <- Hsz in HN.
  apply DoRunWithType_run_fit; try done.
  rewrite Hsz. apply NHWC2NCHW_Y_dims_fit. by rewrite <- Hsz.
Qed.

(** The runs of a channel-second input, with their descriptors laid
    bare. *)
Lemma run_layout_NCHW2NHWC T X (n c : Z) (mid : list Z) :
  sizes X = n :: c :: mid → mid ≠ [] →
  Forall (λ d, 0 < d <= Int32.int_max) (sizes X) →
  numel (drop 1 (sizes X)) <= Int32.int_max →
  meta X = TypeMeta_Make T →
  ∃ nb E sN sC,
    layout_pair E sN sC n c mid
    ∧ ∀ w, cache_coherent NCHW2NHWC T (sizes X) (self w) →
        RunOnDevice NCHW2NHWC X w
        = (mkWorld
             (mkOpState (mkDesc (cudnnTypeWrapper_type T) nb E sC)
                (mkDesc (cudnnTypeWrapper_type T) nb E sN) (sizes X))
             (mkTensor (n :: mid ++ [c]) (TypeMeta_Make T)
                (Mem.relayout E sC sN (data X) (data (output w)))),
           Ok true).
Proof.
  intros Hsz Hmid Hbnd Hle Hmeta.
  pose proof (bounded_pos _ Hbnd) as Hpos.
  pose proof (bounded_in_range _ Hbnd) as Hfit.
  rewrite Hsz in Hpos, Hle.
  change (drop 1 (n :: c :: mid)) with (c :: mid) in Hle.
  rewrite <- numel_rotate in Hle. apply Forall_rotate in Hpos.
  destruct (descriptor_pair_layout (cudnnTypeWrapper_type T) n c mid
              Hmid Hpos Hle)
    as (nb & E & sN & sC & HN & HC & Hlay).
  exists nb, E, sN, sC. split; [done|]. intros w Hcoh.
  rewrite (RunOnDevice_Make _ T) by done.
  rewrite <- Hsz in HC.
  apply DoRunWithType_run_fit; try done.
  rewrite Hsz. apply NCHW2NHWC_Y_dims_fit. by rewrite <- Hsz.
Qed.

(** The split of [direction_split], without the output shape. *)
Lemma direction_sizes d (dims : list Z) :
  (3 <= length dims)%nat →
  ∃ n c mid,
    mid ≠ []
    ∧ dims = match d with
             | NHWC2NCHW => n :: mid ++ [c]
             | NCHW2NHWC => n :: c :: mid
             end.
Proof.
  intros Hrank.
  destruct (direction_split d dims Hrank) as (n & c & mid & Hmid & Hd).
  exists n, c, mid. split; [done|]. by destruct d; destruct Hd as [-> _].
Qed.

(** X9: NHWC2NCHW is the transposition of channel and spatial
    position.  For an input of shape [n :: mid ++ [c]] with at least one
    spatial axis, a supported element type, positive extents that each
    fit a 32-bit [int] and a per-sample element count that fits a 32-bit
    [int], run on an instance whose cache is coherent for the input, and
    with spatial size [S = numel mid]: the element of batch [i], spatial
    position [s] and channel [j], at input offset [(i*S + s)*c + j], ends
    at output offset [(i*c + j)*S + s]. *)
Theorem NHWC2NCHW_transposes T X w (n c : Z) (mid : list Z) (i j s : Z) :
  sizes X = n :: mid ++ [c] → mid ≠ [] →
  Forall (λ d, 0 < d <= Int32.int_max) (sizes X) →
  numel (drop 1 (sizes X)) <= Int32.int_max →
  meta X = TypeMeta_Make T →
  cache_coherent NHWC2NCHW T (sizes X) (self w) →
  0 <= i < n → 0 <= j < c → 0 <= s < numel mid →
  data (output (RunOnDevice NHWC2NCHW X w).1) ((i * c + j) * numel mid + s)
  = data X ((i * numel mid + s) * c + j).
Proof.
  intros Hsz Hmid Hbnd Hle Hmeta Hcoh Hi Hj Hs.
  destruct (run_layout_NHWC2NCHW T X n c mid Hsz Hmid Hbnd Hle Hmeta)
    as (nb & E & sN & sC & Hlay & Hrun).
  rewrite (Hrun w Hcoh).
  destruct Hlay as (HinjC & _ & _ & _ & _ & _ & Htr).
  destruct (Htr i j s Hi Hj Hs) as (idx & Hidx & <- & <-).
  simpl. by apply relayout_at.
Qed.

(** X10: NCHW2NHWC is the inverse transposition.  For an input of
    shape [n :: c :: mid] with at least one spatial axis, a supported
    element type, positive extents that each fit a 32-bit [int] and a
    per-sample element count that fits a 32-bit [int], run on an instance
    whose cache is coherent for the input, and with spatial size
    [S = numel mid]: the element of batch [i], channel [j] and spatial
    position [s], at input offset [(i*c + j)*S + s], ends at output
    offset [(i*S + s)*c + j]. *)
Theorem NCHW2NHWC_transposes T X w (n c : Z) (mid : list Z) (i j s : Z) :
  sizes X = n :: c :: mid → mid ≠ [] →
  Forall (λ d, 0 < d <= Int32.int_max) (sizes X) →
  numel (drop 1 (sizes X)) <= Int32.int_max →
  meta X = TypeMeta_Make T →
  cache_coherent NCHW2NHWC T (sizes X) (self w) →
  0 <= i < n → 0 <= j < c → 0 <= s < numel mid →
  data (output (RunOnDevice NCHW2NHWC X w).1) ((i * numel mid + s) * c + j)
  = data X ((i * c + j) * numel mid + s).
Proof.
  intros Hsz Hmid Hbnd Hle Hmeta Hcoh Hi Hj Hs.
  destruct (run_layout_NCHW2NHWC T X n c mid Hsz Hmid Hbnd Hle Hmeta)
    as (nb & E & sN & sC & Hlay & Hrun).
  rewrite (Hrun w Hcoh).
  destruct Hlay as (_ & HinjN & _ & _ & _ & _ & Htr).
  destruct (Htr i j s Hi Hj Hs) as (idx & Hidx & <- & <-).
  simpl. by apply relayout_at.
Qed.

(** X11: on an input of rank at least 3 with a supported element type,
    positive extents that each fit a 32-bit [int] and a per-sample
    element count that fits a 32-bit [int], and an instance whose cache
    is coherent for the input, a run does not write outside the
    destination: every offset that is negative or not below the element
    count of the input keeps the element the destination held before the
    run. *)
Theorem run_writes_within_buffer d T X w (o : Z) :
  (3 <= length (sizes X))%nat →
  Forall (λ d, 0 < d <= Int32.int_max) (sizes X) →
  numel (drop 1 (sizes X)) <= Int32.int_max →
  meta X = TypeMeta_Make T →
  cache_coherent d T (sizes X) (self w) →
  ¬ (0 <= o < numel (sizes X)) →
  data (output (RunOnDevice d X w).1) o = data (output w) o.
Proof.
  intros Hrank Hbnd Hle Hmeta Hcoh Ho.
  destruct (direction_sizes d (sizes X) Hrank)
    as (n & c & mid & Hmid & Hsz).
  destruct d.
  - destruct (run_layout_NHWC2NCHW T X n c mid Hsz Hmid Hbnd Hle Hmeta)
      as (nb & E & sN & sC & Hlay & Hrun).
    rewrite (Hrun w Hcoh).
    destruct Hlay as (_ & _ & HwC & _).
    simpl. apply relayout_frame. intros idx Hidx <-.
    apply Ho. rewrite Hsz. by apply HwC.
  - destruct (run_layout_NCHW2NHWC T X n c mid Hsz Hmid Hbnd Hle Hmeta)
      as (nb & E & sN & sC & Hlay & Hrun).
    rewrite (Hrun w Hcoh).
    destruct Hlay as (_ & _ & _ & HwN & _).
    simpl. apply relayout_frame. intros idx Hidx <-.
    apply Ho. rewrite Hsz.
    replace (numel (n :: c :: mid)) with (numel (n :: mid ++ [c]))
      by (rewrite !numel_cons, numel_rotate, numel_cons; lia).
    by apply HwN.
Qed.

(** X8: for an input of rank at least 3 with a supported element type,
    positive extents that each fit a 32-bit [int] and a per-sample
    element count that fits a 32-bit [int], run on instances whose
    caches are coherent for the input of each conversion, converting
    channel-second to channel-last and the result back reproduces the
    shape, the element type and every element. *)
Theorem NCHW_round_trip T X w1 w2 :
  (3 <= length (sizes X))%nat →
  Forall (λ d, 0 < d <= Int32.int_max) (sizes X) →
  numel (drop 1 (sizes X)) <= Int32.int_max →
  meta X = TypeMeta_Make T →
  cache_coherent NCHW2NHWC T (sizes X) (self w1) →
  let r1 := RunOnDevice NCHW2NHWC X w1 in
  cache_coherent NHWC2NCHW T (sizes (output r1.1)) (self w2) →
  let r2 := RunOnDevice NHWC2NCHW (output r1.1) w2 in
  r1.2 = Ok true ∧ r2.2 = Ok true
  ∧ sizes (output r2.1) = sizes X
  ∧ meta (output r2.1) = meta X
  ∧ ∀ o, 0 <= o < numel (sizes X) → data (output r2.1) o = data X o.
Proof.
  intros Hrank Hbnd Hle Hmeta Hcoh1.
  pose proof (bounded_pos _ Hbnd) as Hpos.
  pose proof (bounded_in_range _ Hbnd) as Hfit.
  destruct (direction_sizes NCHW2NHWC (sizes X) Hrank)
    as (n & c & mid & Hmid & Hsz).
  assert (Hpos' : Forall (λ d, 0 < d) (n :: mid ++ [c])).
  { apply Forall_rotate. by rewrite <- Hsz. }
  assert (Hle' : numel (mid ++ [c]) <= Int32.int_max).
  { rewrite Hsz in Hle. by rewrite numel_rotate. }
  destruct (descriptor_pair_layout (cudnnTypeWrapper_type T) n c mid
              Hmid Hpos' Hle')
    as (nb & E & sN & sC & HN & HC & Hlay).
  destruct Hlay as (HinjC & HinjN & _ & _ & HcovC & _ & _).
  assert (Hrun1 : RunOnDevice NCHW2NHWC X w1
                  = (mkWorld
                       (mkOpState (mkDesc (cudnnTypeWrapper_type T) nb E sC)
                          (mkDesc (cudnnTypeWrapper_type T) nb E sN)
                          (sizes X))
                       (mkTensor (n :: mid ++ [c]) (TypeMeta_Make T)
                          (Mem.relayout E sC sN (data X)
                             (data (output w1)))),
                     Ok true)).
  { rewrite (RunOnDevice_Make _ T) by done.
    apply (DoRunWithType_run_fit NCHW2NHWC T X w1 (n :: mid ++ [c]));
      try done.
    - rewrite Hsz. apply NCHW2NHWC_Y_dims_fit. by rewrite <- Hsz.
    - by rewrite Hsz. }
  intros r1. unfold r1. rewrite Hrun1. simpl. intros Hcoh2.
  set (Y1 := mkTensor (n :: mid ++ [c]) (TypeMeta_Make T)
               (Mem.relayout E sC sN (data X) (data (output w1)))).
  assert (Hfit1 : Forall Int32.in_range (sizes Y1)).
  { apply Forall_rotate. by rewrite <- Hsz. }
  assert (Hrun2 : RunOnDevice NHWC2NCHW Y1 w2
                  = (mkWorld
                       (mkOpState (mkDesc (cudnnTypeWrapper_type T) nb E sN)
                          (mkDesc (cudnnTypeWrapper_type T) nb E sC)
                          (sizes Y1))
                       (mkTensor (n :: c :: mid) (TypeMeta_Make T)
                          (Mem.relayout E sN sC (data Y1)
                             (data (output w2)))),
                     Ok true)).
  { rewrite (RunOnDevice_Make _ T) by done.
    apply (DoRunWithType_run_fit NHWC2NCHW T Y1 w2 (n :: c :: mid));
      try done.
    by apply NHWC2NCHW_Y_dims_fit. }
  rewrite Hrun2. simpl.
  split; [done|]. split; [done|]. split; [done|]. split; [done|].
  intros o Ho. rewrite Hsz in Ho.
  apply (relayout_round_trip E sC sN _ _ _ (numel (n :: mid ++ [c])));
    try done.
  rewrite !numel_cons, numel_rotate, numel_cons. rewrite !numel_cons in Ho.
  lia.
Qed.

(** X13: on an input of rank at least 3 with a supported element type,
    positive extents that each fit a 32-bit [int] and a per-sample
    element count that fits a 32-bit [int], a run overwrites every
    element of the destination: run on two instances whose caches are
    both coherent for the input, the output buffers agree at every offset
    below the element count, whatever the two destinations held before
    and whichever of the two caches was hit. *)
Theorem run_fully_populates d T X w w' (o : Z) :
  (3 <= length (sizes X))%nat →
  Forall (λ d, 0 < d <= Int32.int_max) (sizes X) →
  numel (drop 1 (sizes X)) <= Int32.int_max →
  meta X = TypeMeta_Make T →
  cache_coherent d T (sizes X) (self w) →
  cache_coherent d T (sizes X) (self w') →
  0 <= o < numel (sizes X) →
  data (output (RunOnDevice d X w).1) o
  = data (output (RunOnDevice d X w').1) o.
Proof.
  intros Hrank Hbnd Hle Hmeta Hcoh Hcoh' Ho.
  destruct (direction_sizes d (sizes X) Hrank)
    as (n & c & mid & Hmid & Hsz).
  destruct d.
  - destruct (run_layout_NHWC2NCHW T X n c mid Hsz Hmid Hbnd Hle Hmeta)
      as (nb & E & sN & sC & Hlay & Hrun).
    rewrite (Hrun w Hcoh), (Hrun w' Hcoh').
    destruct Hlay as (HinjC & _ & _ & _ & HcovC & _).
    rewrite Hsz in Ho. simpl.
    destruct (HcovC o Ho) as (idx & Hidx & <-).
    by rewrite !relayout_at.
  - destruct (run_layout_NCHW2NHWC T X n c mid Hsz Hmid Hbnd Hle Hmeta)
      as (nb & E & sN & sC & Hlay & Hrun).
    rewrite (Hrun w Hcoh), (Hrun w' Hcoh').
    destruct Hlay as (_ & HinjN & _ & _ & _ & HcovN & _).
    rewrite Hsz in Ho. simpl.
    assert (Ho' : 0 <= o < numel (n :: mid ++ [c])).
    { revert Ho. rewrite !numel_cons, numel_rotate, numel_cons. lia. }
    destruct (HcovN o Ho') as (idx & Hidx & <-).
    by rewrite !relayout_at.
Qed.

End Runs.

(** ** The properties above on concrete inputs *)

Lemma SetTensorDescriptor_well_formed_witness :
  (3 <= length [2; 3; 4; 5; 6; 7]%Z)%nat
  ∧ ∃ desc,
      SetTensorDescriptor CUDNN_DATA_HALF NHWC [2; 3; 4; 5; 6; 7] = Ok desc
      ∧ dataType desc = CUDNN_DATA_HALF
      ∧ nbDims desc
        = (if decide (length [2; 3; 4; 5; 6; 7]%Z <= 4)%nat then 4 else 5)
      ∧ Vec.size (dimA desc) = nbDims desc
      ∧ Vec.size (strideA desc) = nbDims desc.
Proof.
  assert (Hrank : (3 <= length [2; 3; 4; 5; 6; 7]%Z)%nat) by (simpl; lia).
  split; [done|].
  exact (SetTensorDescriptor_well_formed CUDNN_DATA_HALF NHWC
           [2; 3; 4; 5; 6; 7] Hrank).
Defined.

Lemma SetTensorDescriptor_rank_below_3_witness :
  (length [2; 3]%Z < 3)%nat
  ∧ SetTensorDescriptor CUDNN_DATA_FLOAT NCHW [2; 3] = Err OutOfBounds.
Proof.
  assert (Hrank : (length [2; 3]%Z < 3)%nat) by (simpl; lia).
  split; [done|].
  exact (SetTensorDescriptor_rank_below_3 CUDNN_DATA_FLOAT NCHW [2; 3]
           Hrank).
Defined.

Lemma descriptors_agree_witness :
  (3 <= length [1; 1; 1; 641; 6700417; 1]%Z)%nat
  ∧ ∃ Y_dims xd yd,
      computeOutputShape NHWC2NCHW [1; 1; 1; 641; 6700417; 1] = Ok Y_dims
      ∧ SetTensorDescriptor CUDNN_DATA_HALF (source_order NHWC2NCHW)
          (Vec.narrow [1; 1; 1; 641; 6700417; 1]) = Ok xd
      ∧ SetTensorDescriptor CUDNN_DATA_HALF (dest_order NHWC2NCHW) Y_dims
        = Ok yd
      ∧ nbDims xd = nbDims yd
      ∧ dimA xd = dimA yd
      ∧ dataType xd = dataType yd.
Proof.
  assert (Hrank : (3 <= length [1; 1; 1; 641; 6700417; 1]%Z)%nat)
    by (simpl; lia).
  split; [done|].
  exact (descriptors_agree NHWC2NCHW CUDNN_DATA_HALF
           [1; 1; 1; 641; 6700417; 1] Hrank).
Defined.

Lemma computeOutputShape_inverse_witness :
  ((2 <= length [2; 5; 7; 3]%Z)%nat ∧ Forall Int32.in_range [2; 5; 7; 3])
  ∧ computeOutputShape NHWC2NCHW [2; 5; 7; 3]
    ≫= computeOutputShape NCHW2NHWC = Ok (Vec.narrow [2; 5; 7; 3])
  ∧ computeOutputShape NCHW2NHWC [2; 5; 7; 3]
    ≫= computeOutputShape NHWC2NCHW = Ok (Vec.narrow [2; 5; 7; 3])
  ∧ Vec.narrow [2; 5; 7; 3] = [2; 5; 7; 3].
Proof.
  assert (Hrank : (2 <= length [2; 5; 7; 3]%Z)%nat) by (simpl; lia).
  assert (Hfit : Forall Int32.in_range [2; 5; 7; 3])
    by (repeat constructor; unfold Int32.int_min, Int32.int_max; lia).
  split; [done|].
  destruct (computeOutputShape_inverse [2; 5; 7; 3] Hrank)
    as [[H1 H2] H3].
  split; [exact H1|]. split; [exact H2|]. exact (H3 Hfit).
Defined.

Example computeOutputShape_inverse_narrows :
  computeOutputShape NHWC2NCHW [1; 4294967298; 3]
  ≫= computeOutputShape NCHW2NHWC = Ok [1; 2; 3].
Proof. done. Qed.

Lemma example_rank : (3 <= length (sizes example_input))%nat.
Proof. simpl. lia. Qed.

Lemma example_positive :
  Forall (λ d, 0 < d <= Int32.int_max) (sizes example_input).
Proof. repeat constructor; unfold Int32.int_max; lia. Qed.

Lemma example_bounded :
  numel (drop 1 (sizes example_input)) <= Int32.int_max.
Proof. vm_compute. discriminate. Qed.

Lemma example_coherent d fill :
  cache_coherent d T_float (sizes example_input) (self (example_world fill)).
Proof. intros Hhit. discriminate Hhit. Qed.

Lemma run_succeeds_witness :
  let X := example_input in
  let w := example_world 0 in
  let r := RunOnDevice NHWC2NCHW X w in
  ((3 <= length (sizes X))%nat
   ∧ Forall (λ d, 0 < d <= Int32.int_max) (sizes X)
   ∧ numel (drop 1 (sizes X)) <= Int32.int_max
   ∧ meta X = TypeMeta_Make T_float
   ∧ cache_coherent NHWC2NCHW T_float (sizes X) (self w))
  ∧ r.2 = Ok true
  ∧ cached_X_dims_ (self r.1) = Vec.narrow (sizes X)
  ∧ Vec.narrow (sizes X) = sizes X
  ∧ computeOutputShape NHWC2NCHW (sizes X) = Ok (sizes (output r.1))
  ∧ meta (output r.1) = meta X
  ∧ SetTensorDescriptor (cudnnTypeWrapper_type T_float)
      (source_order NHWC2NCHW) (Vec.narrow (sizes X))
    = Ok (X_desc_ (self r.1))
  ∧ SetTensorDescriptor (cudnnTypeWrapper_type T_float)
      (dest_order NHWC2NCHW) (sizes (output r.1)) = Ok (Y_desc_ (self r.1)).
Proof.
  intros X w r.
  split.
  { repeat split;
      first [ done | lia | apply example_rank | apply example_positive
            | apply example_bounded | apply example_coherent | assumption
            | match goal with H : _ ∧ _ |- _ => apply H end ]. }
  exact (run_succeeds NHWC2NCHW T_float X w example_rank example_positive
           example_bounded eq_refl (example_coherent NHWC2NCHW 0)).
Defined.

Lemma cache_is_transparent_witness :
  let X := example_input in
  let w := (RunOnDevice NCHW2NHWC X (example_world 0)).1 in
  ((3 <= length (sizes X))%nat
   ∧ meta X = TypeMeta_Make T_float
   ∧ cache_coherent NCHW2NHWC T_float (sizes X) (self w))
  ∧ RunOnDevice NCHW2NHWC X w
    = RunOnDevice NCHW2NHWC X (mkWorld CuDNNOrderSwithOpBase (output w)).
Proof.
  intros X w.
  assert (Hcoh : cache_coherent NCHW2NHWC T_float (sizes X) (self w)).
  { intros _. by exists [2; 3; 2]. }
  split.
  { repeat split;
      first [ done | lia | apply example_rank | apply example_positive
            | apply example_bounded | apply example_coherent | assumption
            | match goal with H : _ ∧ _ |- _ => apply H end ]. }
  exact (cache_is_transparent NCHW2NHWC T_float X w example_rank eq_refl
           Hcoh).
Defined.

Lemma cache_inv_preserved_witness :
  let X := example_input in
  let w := example_world 0 in
  ((3 <= length (sizes X))%nat ∧ cache_inv NHWC2NCHW (self w))
  ∧ cache_inv NHWC2NCHW (self (RunOnDevice NHWC2NCHW X w).1).
Proof.
  intros X w.
  assert (Hinv : cache_inv NHWC2NCHW (self w)) by (by left).
  split.
  { repeat split;
      first [ done | lia | apply example_rank | apply example_positive
            | apply example_bounded | apply example_coherent | assumption
            | match goal with H : _ ∧ _ |- _ => apply H end ]. }
  exact (cache_inv_preserved NHWC2NCHW X w example_rank Hinv).
Defined.

Lemma rerun_is_idempotent_witness :
  let X := example_input in
  let w := example_world 0 in
  let r1 := RunOnDevice NHWC2NCHW X w in
  let r2 := RunOnDevice NHWC2NCHW X r1.1 in
  ((3 <= length (sizes X))%nat
   ∧ Forall (λ d, 0 < d <= Int32.int_max) (sizes X)
   ∧ numel (drop 1 (sizes X)) <= Int32.int_max
   ∧ meta X = TypeMeta_Make T_float
   ∧ cache_coherent NHWC2NCHW T_float (sizes X) (self w))
  ∧ cached_X_dims_ (self r1.1) = Vec.narrow (sizes X)
  ∧ r2.2 = Ok true
  ∧ self r2.1 = self r1.1
  ∧ sizes (output r2.1) = sizes (output r1.1)
  ∧ meta (output r2.1) = meta (output r1.1)
  ∧ ∀ o, data (output r2.1) o = data (output r1.1) o.
Proof.
  intros X w r1 r2.
  split.
  { repeat split;
      first [ done | lia | apply example_rank | apply example_positive
            | apply example_bounded | apply example_coherent | assumption
            | match goal with H : _ ∧ _ |- _ => apply H end ]. }
  exact (rerun_is_idempotent NHWC2NCHW T_float X w example_rank
           example_positive example_bounded eq_refl
           (example_coherent NHWC2NCHW 0)).
Defined.

Lemma NHWC2NCHW_transposes_witness :
  let X := example_input in
  let w := example_world 0 in
  (sizes X = 2 :: [2] ++ [3] ∧ [2] ≠ []
   ∧ Forall (λ d, 0 < d <= Int32.int_max) (sizes X)
   ∧ numel (drop 1 (sizes X)) <= Int32.int_max
   ∧ meta X = TypeMeta_Make T_float
   ∧ cache_coherent NHWC2NCHW T_float (sizes X) (self w)
   ∧ 0 <= 1 < 2 ∧ 0 <= 2 < 3 ∧ 0 <= 1 < numel [2])
  ∧ data (output (RunOnDevice NHWC2NCHW X w).1) ((1 * 3 + 2) * numel [2] + 1)
    = data X ((1 * numel [2] + 1) * 3 + 2).
Proof.
  intros X w.
  assert (Hne : [2] ≠ ([] : list Z)) by discriminate.
  assert (Hi : 0 <= 1 < 2) by lia.
  assert (Hj : 0 <= 2 < 3) by lia.
  assert (Hs : 0 <= 1 < numel [2]) by (unfold numel; simpl; lia).
  split.
  { repeat split;
      first [ done | lia | apply example_rank | apply example_positive
            | apply example_bounded | apply example_coherent | assumption
            | match goal with H : _ ∧ _ |- _ => apply H end ]. }
  exact (NHWC2NCHW_transposes T_float X w 2 3 [2] 1 2 1 eq_refl Hne
           example_positive example_bounded eq_refl
           (example_coherent NHWC2NCHW 0) Hi Hj Hs).
Defined.

Lemma NCHW2NHWC_transposes_witness :
  let X := example_input in
  let w := example_world 0 in
  (sizes X = 2 :: 2 :: [3] ∧ [3] ≠ []
   ∧ Forall (λ d, 0 < d <= Int32.int_max) (sizes X)
   ∧ numel (drop 1 (sizes X)) <= Int32.int_max
   ∧ meta X = TypeMeta_Make T_float
   ∧ cache_coherent NCHW2NHWC T_float (sizes X) (self w)
   ∧ 0 <= 1 < 2 ∧ 0 <= 1 < 2 ∧ 0 <= 2 < numel [3])
  ∧ data (output (RunOnDevice NCHW2NHWC X w).1) ((1 * numel [3] + 2) * 2 + 1)
    = data X ((1 * 2 + 1) * numel [3] + 2).
Proof.
  intros X w.
  assert (Hne : [3] ≠ ([] : list Z)) by discriminate.
  assert (Hi : 0 <= 1 < 2) by lia.
  assert (Hs : 0 <= 2 < numel [3]) by (unfold numel; simpl; lia).
  split.
  { repeat split;
      first [ done | lia | apply example_rank | apply example_positive
            | apply example_bounded | apply example_coherent | assumption
            | match goal with H : _ ∧ _ |- _ => apply H end ]. }
  exact (NCHW2NHWC_transposes T_float X w 2 2 [3] 1 1 2 eq_refl Hne
           example_positive example_bounded eq_refl
           (example_coherent NCHW2NHWC 0) Hi Hi Hs).
Defined.

Lemma run_writes_within_buffer_witness :
  let X := example_input in
  let w := example_world 0 in
  ((3 <= length (sizes X))%nat
   ∧ Forall (λ d, 0 < d <= Int32.int_max) (sizes X)
   ∧ numel (drop 1 (sizes X)) <= Int32.int_max
   ∧ meta X = TypeMeta_Make T_float
   ∧ cache_coherent NHWC2NCHW T_float (sizes X) (self w)
   ∧ ¬ (0 <= 12 < numel (sizes X)))
  ∧ data (output (RunOnDevice NHWC2NCHW X w).1) 12 = data (output w) 12.
Proof.
  intros X w.
  assert (Ho : ¬ (0 <= 12 < numel (sizes X)))
    by (unfold numel; simpl; lia).
  split.
  { repeat split;
      first [ done | lia | apply example_rank | apply example_positive
            | apply example_bounded | apply example_coherent | assumption
            | match goal with H : _ ∧ _ |- _ => apply H end ]. }
  exact (run_writes_within_buffer NHWC2NCHW T_float X w 12 example_rank
           example_positive example_bounded eq_refl
           (example_coherent NHWC2NCHW 0) Ho).
Defined.

Lemma NCHW_round_trip_witness :
  let X := example_input in
  let w := example_world 0 in
  let r1 := RunOnDevice NCHW2NHWC X w in
  let r2 := RunOnDevice NHWC2NCHW (output r1.1) w in
  ((3 <= length (sizes X))%nat
   ∧ Forall (λ d, 0 < d <= Int32.int_max) (sizes X)
   ∧ numel (drop 1 (sizes X)) <= Int32.int_max
   ∧ meta X = TypeMeta_Make T_float
   ∧ cache_coherent NCHW2NHWC T_float (sizes X) (self w)
   ∧ cache_coherent NHWC2NCHW T_float (sizes (output r1.1)) (self w))
  ∧ r1.2 = Ok true ∧ r2.2 = Ok true
  ∧ sizes (output r2.1) = sizes X
  ∧ meta (output r2.1) = meta X
  ∧ ∀ o, 0 <= o < numel (sizes X) → data (output r2.1) o = data X o.
Proof.
  intros X w r1 r2.
  assert (Hcoh2 : cache_coherent NHWC2NCHW T_float
                    (sizes (output r1.1)) (self w))
    by (intros Hhit; discriminate Hhit).
  split.
  { repeat split;
      first [ done | lia | apply example_rank | apply example_positive
            | apply example_bounded | apply example_coherent | assumption
            | match goal with H : _ ∧ _ |- _ => apply H end ]. }
  exact (NCHW_round_trip T_float X w w example_rank example_positive
           example_bounded eq_refl (example_coherent NCHW2NHWC 0) Hcoh2).
Defined.

Lemma run_fully_populates_witness :
  let X := example_input in
  let w := example_world 0 in
  let w' := example_world 7 in
  ((3 <= length (sizes X))%nat
   ∧ Forall (λ d, 0 < d <= Int32.int_max) (sizes X)
   ∧ numel (drop 1 (sizes X)) <= Int32.int_max
   ∧ meta X = TypeMeta_Make T_float
   ∧ cache_coherent NCHW2NHWC T_float (sizes X) (self w)
   ∧ cache_coherent NCHW2NHWC T_float (sizes X) (self w')
   ∧ 0 <= 5 < numel (sizes X))
  ∧ data (output (RunOnDevice NCHW2NHWC X w).1) 5
    = data (output (RunOnDevice NCHW2NHWC X w').1) 5.
Proof.
  intros X w w'.
  assert (Ho : 0 <= 5 < numel (sizes X)) by (unfold numel; simpl; lia).
  split.
  { repeat split;
      first [ done | lia | apply example_rank | apply example_positive
            | apply example_bounded | apply example_coherent | assumption
            | match goal with H : _ ∧ _ |- _ => apply H end ]. }
  exact (run_fully_populates NCHW2NHWC T_float X w w' 5 example_rank
           example_positive example_bounded eq_refl
           (example_coherent NCHW2NHWC 0) (example_coherent NCHW2NHWC 7) Ho).
Defined.
